(** * go-inceptiondb: the data-marshalling core of the client

    A shallow embedding of the Go client's streaming reader ([JSONStream],
    [Iterate]), of its dynamic-field codec ([Index], [CreateIndexRequest]),
    of its payload encoders ([encodeJSONPayload], [encodeJSONObject],
    [encodeQueryRequest]) and of its error parser ([parseErrorResponse]),
    with the properties the specification states about them.

    Conventions.
    - A Go [string] and a Go [[]byte] are both sequences of bytes: they are
      modelled by [string] (whose characters are 8-bit).
    - A Go [error] is [option error]: [None] is the nil error.
    - A pointer that may be nil is an [option]; a method with a pointer
      receiver takes the state behind the pointer and returns the new one.
    - Functions of Go's standard library the code calls ([json.Marshal],
      [json.Unmarshal], the decoder of a stream, the [Close] of a response
      body) are parameters of the sections that use them; module [Json]
      gives an executable instance used to run the code on concrete inputs. *)

From Stdlib Require Import ZArith Ascii.
From stdpp Require Import base strings gmap list sorting pretty.

Local Open Scope Z_scope.
Set Warnings "-register-all".

(** ** Go errors *)

Module GoError.

(** The error values this package can tell apart. [io_EOF] and
    [ErrStopIteration] are package-level variables: each is one value,
    compared by identity. [errorString] is a value made by [errors.New]
    anywhere else: it is never identical to a sentinel, whatever its text.
    [wrapError] is what [fmt.Errorf] with the verb %w builds. *)
Inductive error : Type :=
| io_EOF
| ErrStopIteration
| errorString (msg : string)
| wrapError (msg : string) (inner : error).

#[global] Instance error_eq_dec : EqDecision error.
Proof. solve_decision. Defined.

(** [errors.Is]: identity with the target somewhere along the Unwrap chain. *)
Fixpoint errors_Is (err target : error) : bool :=
  if bool_decide (err = target) then true
  else match err with
       | wrapError _ inner => errors_Is inner target
       | _ => false
       end.

(** The text [err.Error()] returns. *)
Fixpoint Error_text (err : error) : string :=
  match err with
  | io_EOF => "EOF"
  | ErrStopIteration => "driver: stop iteration"
  | errorString msg => msg
  | wrapError msg inner => msg +:+ Error_text inner
  end.

Lemma errors_Is_refl (e : error) : errors_Is e e = true.
Proof. destruct e; simpl; try case_bool_decide; congruence. Qed.

End GoError.
Export GoError.

(** ** Go strings and byte slices *)

Module GoString.

(** The white space [strings.TrimSpace] and [bytes.TrimSpace] trim is the
    white space of [unicode.IsSpace], read from the UTF-8 text: the six
    ASCII bytes of the table [asciiSpace], and the encodings, two or three
    bytes long, of U+0085, U+00A0, U+1680, U+2000 to U+200A, U+2028,
    U+2029, U+202F, U+205F and U+3000. A byte that is not part of a valid
    encoding decodes to [utf8.RuneError], which is not white space. *)

(** The table [asciiSpace]: tab, line feed, vertical tab, form feed,
    carriage return and space. *)
Definition isSpace (c : ascii) : bool :=
  match c with
  | "009" | "010" | "011" | "012" | "013" | " " => true
  | _ => false
  end%char.

(** C2 85 and C2 A0: U+0085 and U+00A0. *)
Definition isSpace2 (a b : ascii) : bool :=
  (N_of_ascii a =? 194)%N
  && ((N_of_ascii b =? 133)%N || (N_of_ascii b =? 160)%N).

(** E1 9A 80 (U+1680); E2 80 80 to E2 80 8A (U+2000 to U+200A); E2 80 A8,
    E2 80 A9, E2 80 AF (U+2028, U+2029, U+202F); E2 81 9F (U+205F);
    E3 80 80 (U+3000). *)
Definition isSpace3 (a b c : ascii) : bool :=
  let x := N_of_ascii a in
  let y := N_of_ascii b in
  let z := N_of_ascii c in
  ((x =? 225) && (y =? 154) && (z =? 128))%N
  || ((x =? 226) && (y =? 128)
      && (((128 <=? z) && (z <=? 138)) || (z =? 168) || (z =? 169)
          || (z =? 175)))%N
  || ((x =? 226) && (y =? 129) && (z =? 159))%N
  || ((x =? 227) && (y =? 128) && (z =? 128))%N.

(** [s] is the encoding of one white space character. *)
Definition space_rune (s : string) : bool :=
  match s with
  | String a EmptyString => isSpace a
  | String a (String b EmptyString) => isSpace2 a b
  | String a (String b (String c EmptyString)) => isSpace3 a b c
  | _ => false
  end.

(** [TrimLeftFunc(s, unicode.IsSpace)]: the characters are decoded from
    the left, and the text from the first one that is not white space is
    kept. *)
Fixpoint TrimLeft (s : string) : string :=
  match s with
  | EmptyString => EmptyString
  | String a r1 =>
      if isSpace a then TrimLeft r1
      else
        match r1 with
        | EmptyString => s
        | String b r2 =>
            if isSpace2 a b then TrimLeft r2
            else
              match r2 with
              | EmptyString => s
              | String c r3 => if isSpace3 a b c then TrimLeft r3 else s
              end
        end
  end.

(** [TrimRightFunc(s, unicode.IsSpace)]: the characters are decoded from
    the right, and the text up to the last one that is not white space is
    kept. No encoding of a white space character ends with another one, so
    what is left of [String c r], once the white space at the end of [r] is
    gone, ends in white space only if it is one white space character. *)
Fixpoint TrimRight (s : string) : string :=
  match s with
  | EmptyString => EmptyString
  | String c r =>
      let t := String c (TrimRight r) in
      if space_rune t then EmptyString else t
  end.

(** [strings.TrimSpace] and [bytes.TrimSpace]. Their loops over ASCII
    bytes hand over to the two functions above at the first byte that is
    not ASCII, and agree with them on ASCII text. *)
Definition TrimSpace (s : string) : string := TrimRight (TrimLeft s).

(** The text is made of white space characters only (or is empty). *)
Fixpoint blank (s : string) : bool :=
  match s with
  | EmptyString => true
  | String a r1 =>
      if isSpace a then blank r1
      else
        match r1 with
        | EmptyString => false
        | String b r2 =>
            if isSpace2 a b then blank r2
            else
              match r2 with
              | EmptyString => false
              | String c r3 => isSpace3 a b c && blank r3
              end
        end
  end.

Lemma TrimLeft_blank_bounded (n : nat) :
  forall s : string,
    (String.length s <= n)%nat -> blank s = true -> TrimLeft s = "".
Proof.
  induction n as [|n IH]; intros s Hlen.
  { destruct s; [reflexivity|simpl in Hlen; lia]. }
  destruct s as [|a r1]; [reflexivity|]. cbn [blank TrimLeft].
  cbn [String.length] in Hlen.
  destruct (isSpace a); [apply IH; lia|].
  destruct r1 as [|b r2]; [discriminate|]. cbn [String.length] in Hlen.
  destruct (isSpace2 a b); [apply IH; lia|].
  destruct r2 as [|c r3]; [discriminate|]. cbn [String.length] in Hlen.
  destruct (isSpace3 a b c); [apply IH; lia|discriminate].
Qed.

Lemma TrimLeft_blank (s : string) : blank s = true -> TrimLeft s = "".
Proof. apply (TrimLeft_blank_bounded (String.length s)). lia. Qed.

Lemma TrimSpace_blank (s : string) : blank s = true -> TrimSpace s = "".
Proof. intros H. unfold TrimSpace. rewrite TrimLeft_blank by assumption. reflexivity. Qed.

Lemma length_TrimLeft_bounded (n : nat) :
  forall s : string,
    (String.length s <= n)%nat ->
    (String.length (TrimLeft s) <= String.length s)%nat.
Proof.
  induction n as [|n IH]; intros s Hlen.
  { destruct s; [simpl; lia|simpl in Hlen; lia]. }
  destruct s as [|a r1]; [simpl; lia|]. cbn [TrimLeft].
  cbn [String.length] in Hlen.
  destruct (isSpace a).
  { specialize (IH r1 ltac:(lia)). cbn [String.length]. lia. }
  destruct r1 as [|b r2]; [lia|]. cbn [String.length] in Hlen.
  destruct (isSpace2 a b).
  { specialize (IH r2 ltac:(lia)). cbn [String.length]. lia. }
  destruct r2 as [|c r3]; [lia|]. cbn [String.length] in Hlen.
  destruct (isSpace3 a b c); [|lia].
  specialize (IH r3 ltac:(lia)). cbn [String.length]. lia.
Qed.

Lemma length_TrimLeft (s : string) :
  (String.length (TrimLeft s) <= String.length s)%nat.
Proof. apply (length_TrimLeft_bounded (String.length s)). lia. Qed.

Lemma length_TrimRight (s : string) :
  (String.length (TrimRight s) <= String.length s)%nat.
Proof.
  induction s as [|c r IH]; [simpl; lia|]. cbn [TrimRight]. cbv zeta.
  destruct (space_rune (String c (TrimRight r))); cbn [String.length]; lia.
Qed.

Lemma length_TrimSpace (s : string) :
  (String.length (TrimSpace s) <= String.length s)%nat.
Proof.
  unfold TrimSpace. pose proof (length_TrimRight (TrimLeft s)).
  pose proof (length_TrimLeft s). lia.
Qed.

(** An ASCII example and one with U+00A0, U+2028 and U+3000 around the
    text; a lone byte C2 is not white space. *)
Example TrimSpace_examples :
  TrimSpace (String "009" (String " " ("a b" +:+ String "010" EmptyString))) = "a b" /\
  TrimSpace (String "194" (String "160" ("x" +:+
             String "226" (String "128" (String "168"
             (String "227" (String "128" (String "128" EmptyString)))))))) = "x" /\
  TrimSpace (String "194" (String " " EmptyString)) = String "194" EmptyString /\
  blank (String "194" (String "160" (String " " EmptyString))) = true.
Proof. repeat split; vm_compute; reflexivity. Qed.

End GoString.
Export GoString.

(** ** An executable instance of encoding/json *)

Module Json.

(** A JSON value; also the shape of what [json.Unmarshal] stores in a Go
    [any]. Numbers are the integers: fractions and exponents are outside
    this instance. An object keeps its members in the order of the text. *)
Inductive value : Type :=
| JNull
| JBool (b : bool)
| JNumber (n : Z)
| JString (s : string)
| JArray (items : list value)
| JObject (members : list (string * value)).

Definition dquote : ascii := "034"%char.
Definition backslash : ascii := "092"%char.

(** *** Printing *)

Definition hex_digit (n : N) : ascii :=
  ascii_of_N (if (n <? 10)%N then 48 + n else 87 + n).

Definition escape_u (c : ascii) : string :=
  String backslash
    (String "u" (String "0" (String "0"
      (String (hex_digit (N_of_ascii c / 16))
        (String (hex_digit (N_of_ascii c mod 16)) EmptyString))))).

Definition escape_char (c : ascii) : string :=
  if Ascii.eqb c dquote then String backslash (String dquote EmptyString)
  else if Ascii.eqb c backslash then String backslash (String backslash EmptyString)
  else if Ascii.eqb c "010" then String backslash "n"
  else if Ascii.eqb c "013" then String backslash "r"
  else if Ascii.eqb c "009" then String backslash "t"
  else if (N_of_ascii c <? 32)%N then escape_u c
  else if Ascii.eqb c "<" || Ascii.eqb c ">" || Ascii.eqb c "&" then escape_u c
  else String c EmptyString.

Fixpoint escape (s : string) : string :=
  match s with
  | EmptyString => EmptyString
  | String c r => escape_char c +:+ escape r
  end.

Definition quote (s : string) : string :=
  String dquote (escape s +:+ String dquote EmptyString).

Fixpoint print (v : value) : string :=
  match v with
  | JNull => "null"
  | JBool true => "true"
  | JBool false => "false"
  | JNumber n => pretty n
  | JString s => quote s
  | JArray items =>
      "[" +:+
      (fix elements (l : list value) : string :=
         match l with
         | [] => ""
         | x :: l' =>
             match l' with
             | [] => print x
             | _ => print x +:+ "," +:+ elements l'
             end
         end) items +:+ "]"
  | JObject members =>
      "{" +:+
      (fix pairs (l : list (string * value)) : string :=
         match l with
         | [] => ""
         | (k, x) :: l' =>
             match l' with
             | [] => quote k +:+ ":" +:+ print x
             | _ => quote k +:+ ":" +:+ print x +:+ "," +:+ pairs l'
             end
         end) members +:+ "}"
  end.

(** *** Parsing *)

Definition is_ws (c : ascii) : bool :=
  match c with
  | " " | "009" | "010" | "013" => true
  | _ => false
  end%char.

Fixpoint skip_ws (s : string) : string :=
  match s with
  | EmptyString => EmptyString
  | String c r => if is_ws c then skip_ws r else s
  end.

Definition digit_of (c : ascii) : option Z :=
  let n := Z.of_N (N_of_ascii c) in
  if (48 <=? n) && (n <=? 57) then Some (n - 48) else None.

Fixpoint parse_digits (s : string) (acc : Z) : Z * string :=
  match s with
  | EmptyString => (acc, s)
  | String c r =>
      match digit_of c with
      | Some d => parse_digits r (10 * acc + d)
      | None => (acc, s)
      end
  end.

Definition starts_with_digit (s : string) : bool :=
  match s with
  | String c _ => bool_decide (is_Some (digit_of c))
  | EmptyString => false
  end.

Definition parse_number (s : string) : option (Z * string) :=
  let '(neg, s1) :=
    match s with
    | String "-"%char r => (true, r)
    | _ => (false, s)
    end in
  match s1 with
  | EmptyString => None
  | String c r1 =>
      if negb (starts_with_digit s1) then None
      else if Ascii.eqb c "0" && starts_with_digit r1 then None
      else
        let '(n, r) := parse_digits s1 0 in
        match r with
        | String "."%char _ | String "e"%char _ | String "E"%char _ => None
        | _ => Some (if neg : bool then - n else n, r)
        end
  end.

Definition hex_val (c : ascii) : option N :=
  let n := N_of_ascii c in
  if (48 <=? n)%N && (n <=? 57)%N then Some (n - 48)%N
  else if (97 <=? n)%N && (n <=? 102)%N then Some (n - 87)%N
  else if (65 <=? n)%N && (n <=? 70)%N then Some (n - 55)%N
  else None.

Definition simple_escape (e : ascii) : option ascii :=
  if Ascii.eqb e dquote then Some dquote
  else if Ascii.eqb e backslash then Some backslash
  else if Ascii.eqb e "/" then Some "/"%char
  else if Ascii.eqb e "n" then Some "010"%char
  else if Ascii.eqb e "r" then Some "013"%char
  else if Ascii.eqb e "t" then Some "009"%char
  else if Ascii.eqb e "b" then Some "008"%char
  else if Ascii.eqb e "f" then Some "012"%char
  else None.

(** The text after an opening quote, up to the closing one. An escape
    \uXXXX above 007f needs a UTF-8 encoder and is refused here. *)
Fixpoint parse_string_body (s : string) : option (string * string) :=
  match s with
  | EmptyString => None
  | String c r =>
      if Ascii.eqb c dquote then Some (EmptyString, r)
      else if Ascii.eqb c backslash then
        match r with
        | String e r' =>
            if Ascii.eqb e "u" then
              match r' with
              | String h1 (String h2 (String h3 (String h4 r''))) =>
                  match hex_val h1, hex_val h2, hex_val h3, hex_val h4 with
                  | Some a, Some b, Some c', Some d =>
                      let code := (((a * 16 + b) * 16 + c') * 16 + d)%N in
                      if (code <? 128)%N then
                        match parse_string_body r'' with
                        | Some (t, rest) => Some (String (ascii_of_N code) t, rest)
                        | None => None
                        end
                      else None
                  | _, _, _, _ => None
                  end
              | _ => None
              end
            else
              match simple_escape e with
              | Some ch =>
                  match parse_string_body r' with
                  | Some (t, rest) => Some (String ch t, rest)
                  | None => None
                  end
              | None => None
              end
        | EmptyString => None
        end
      else if (N_of_ascii c <? 32)%N then None
      else
        match parse_string_body r with
        | Some (t, rest) => Some (String c t, rest)
        | None => None
        end
  end.

Fixpoint strip_prefix (p s : string) : option string :=
  match p with
  | EmptyString => Some s
  | String a p' =>
      match s with
      | String b s' => if Ascii.eqb a b then strip_prefix p' s' else None
      | EmptyString => None
      end
  end.

Section Composite.

(** The parser of one value, for the elements of an array and the members
    of an object. *)
Variable pv : string -> option (value * string).

Fixpoint parse_elements (n : nat) (s : string) (acc : list value)
  : option (list value * string) :=
  match n with
  | O => None
  | S n' =>
      match pv s with
      | Some (v, r) =>
          match skip_ws r with
          | String ","%char r' => parse_elements n' r' (v :: acc)
          | String "]"%char r' => Some (rev (v :: acc), r')
          | _ => None
          end
      | None => None
      end
  end.

Fixpoint parse_members (n : nat) (s : string) (acc : list (string * value))
  : option (list (string * value) * string) :=
  match n with
  | O => None
  | S n' =>
      match skip_ws s with
      | String c r =>
          if Ascii.eqb c dquote then
            match parse_string_body r with
            | Some (k, r1) =>
                match skip_ws r1 with
                | String ":"%char r2 =>
                    match pv r2 with
                    | Some (v, r3) =>
                        match skip_ws r3 with
                        | String ","%char r4 => parse_members n' r4 ((k, v) :: acc)
                        | String "}"%char r4 => Some (rev ((k, v) :: acc), r4)
                        | _ => None
                        end
                    | None => None
                    end
                | _ => None
                end
            | None => None
            end
          else None
      | EmptyString => None
      end
  end.

End Composite.

Fixpoint parse_value (fuel : nat) (s : string) : option (value * string) :=
  match fuel with
  | O => None
  | S f =>
      match skip_ws s with
      | EmptyString => None
      | String c rest =>
          if Ascii.eqb c "{" then
            match skip_ws rest with
            | String "}"%char r => Some (JObject [], r)
            | r =>
                match parse_members (parse_value f) (S (String.length r)) r [] with
                | Some (ms, r') => Some (JObject ms, r')
                | None => None
                end
            end
          else if Ascii.eqb c "[" then
            match skip_ws rest with
            | String "]"%char r => Some (JArray [], r)
            | r =>
                match parse_elements (parse_value f) (S (String.length r)) r [] with
                | Some (vs, r') => Some (JArray vs, r')
                | None => None
                end
            end
          else if Ascii.eqb c dquote then
            match parse_string_body rest with
            | Some (t, r) => Some (JString t, r)
            | None => None
            end
          else if Ascii.eqb c "n" then
            match strip_prefix "ull" rest with
            | Some r => Some (JNull, r)
            | None => None
            end
          else if Ascii.eqb c "t" then
            match strip_prefix "rue" rest with
            | Some r => Some (JBool true, r)
            | None => None
            end
          else if Ascii.eqb c "f" then
            match strip_prefix "alse" rest with
            | Some r => Some (JBool false, r)
            | None => None
            end
          else
            match parse_number (String c rest) with
            | Some (n, r) => Some (JNumber n, r)
            | None => None
            end
      end
  end.

(** One value from the front of [s], and what follows it. *)
Definition parse (s : string) : option (value * string) :=
  parse_value (S (String.length s)) s.

(** The whole of [s] is one value, white space around it allowed. *)
Definition parse_all (s : string) : option value :=
  match parse s with
  | Some (v, r) =>
      match skip_ws r with
      | EmptyString => Some v
      | _ => None
      end
  | None => None
  end.

(** The errors of the package, as far as the client tells them apart. *)
Definition SyntaxError : error := errorString "json: syntax error".
Definition UnmarshalTypeError : error :=
  errorString "json: cannot unmarshal value into Go value".

(** [Decoder.Decode]: the next value of the stream [w], stored into the
    destination by [into]; [io.EOF] when only white space is left. *)
Definition Decode {T : Type} (into : value -> T -> option error * T)
    (w : string) (dst : T) : option error * T * string :=
  match skip_ws w with
  | EmptyString => (Some io_EOF, dst, EmptyString)
  | w' =>
      match parse w' with
      | Some (v, r) => let '(e, d) := into v dst in (e, d, r)
      | None => (Some SyntaxError, dst, w')
      end
  end.

(** A Go map filled from the members of an object: a later member
    overwrites an earlier one of the same key. *)
Definition fill_map (base : gmap string value) (ms : list (string * value))
  : gmap string value :=
  foldl (fun m kv => <[kv.1 := kv.2]> m) base ms.

(** The members of a Go map as [json.Marshal] writes them: sorted by key. *)
Definition sorted_members (m : gmap string value) : list (string * value) :=
  merge_sort (fun a b => Is_true (String.leb a.1 b.1)) (map_to_list m).

(** [json.Marshal] of a [map[string]any]. *)
Definition Marshal_map (m : gmap string value) : error + string :=
  inr (print (JObject (sorted_members m))).

(** [json.Unmarshal] into an empty [map[string]any]. *)
Definition Unmarshal_map (data : string) : error + gmap string value :=
  match parse_all data with
  | None => inl SyntaxError
  | Some JNull => inr ∅
  | Some (JObject ms) => inr (fill_map ∅ ms)
  | Some _ => inl UnmarshalTypeError
  end.

(** JSON texts are written below with ' standing for the double quote. *)
Fixpoint dq (s : string) : string :=
  match s with
  | EmptyString => EmptyString
  | String c r => String (if Ascii.eqb c "'" then dquote else c) (dq r)
  end.

Definition nl : string := String "010" EmptyString.

(** *** Printing without the HTML escapes

    What an [Encoder] writes after [SetEscapeHTML(false)]: the characters
    <, > and & are left as they are. *)

Definition escape_char_plain (c : ascii) : string :=
  if Ascii.eqb c "<" || Ascii.eqb c ">" || Ascii.eqb c "&"
  then String c EmptyString
  else escape_char c.

Fixpoint escape_plain (s : string) : string :=
  match s with
  | EmptyString => EmptyString
  | String c r => escape_char_plain c +:+ escape_plain r
  end.

Definition quote_plain (s : string) : string :=
  String dquote (escape_plain s +:+ String dquote EmptyString).

Fixpoint print_plain (v : value) : string :=
  match v with
  | JNull => "null"
  | JBool true => "true"
  | JBool false => "false"
  | JNumber n => pretty n
  | JString s => quote_plain s
  | JArray items =>
      "[" +:+
      (fix elements (l : list value) : string :=
         match l with
         | [] => ""
         | x :: l' =>
             match l' with
             | [] => print_plain x
             | _ => print_plain x +:+ "," +:+ elements l'
             end
         end) items +:+ "]"
  | JObject members =>
      "{" +:+
      (fix pairs (l : list (string * value)) : string :=
         match l with
         | [] => ""
         | (k, x) :: l' =>
             match l' with
             | [] => quote_plain k +:+ ":" +:+ print_plain x
             | _ => quote_plain k +:+ ":" +:+ print_plain x +:+ "," +:+ pairs l'
             end
         end) members +:+ "}"
  end.

End Json.

(** ** The JSON-Lines stream reader and the typed iterator *)

Module Stream.

Section JSONStream.

(** [T] is the caller's item type and [zero] its zero value ([var item T]).
    [W] is the state of the response body together with the decoder that
    buffers it: [Decode] is [s.dec.Decode(v)], which fills the destination
    and advances, and [BodyClose] is [s.resp.Body.Close()]. [C] is the state
    the callback closes over. *)
Context {T W C : Type}.
Variable zero : T.
Variable Decode : W -> T -> option error * T * W.
Variable BodyClose : W -> option error * W.

(** [http.Response], as far as this package reads it. *)
Record Response := { StatusCode : Z; Body : W }.

(** [JSONStream]. [dec] reads from [resp.Body], so both live in [Body resp].
    [released] is not a field of the Go struct: it counts the calls of
    [resp.Body.Close()] made so far. *)
Record JSONStream := {
  resp : Response;
  closed : bool;
  released : nat
}.

Definition newJSONStream (r : Response) : JSONStream :=
  {| resp := r; closed := false; released := 0 |}.

Definition with_body (s : JSONStream) (w : W) : JSONStream :=
  {| resp := {| StatusCode := StatusCode (resp s); Body := w |};
     closed := closed s; released := released s |}.

(** [func (s *JSONStream) Close() error] *)
Definition Close (s : option JSONStream) : option error * option JSONStream :=
  match s with
  | None => (None, None)
  | Some st =>
      if closed st then (None, Some st)
      else
        let '(e, w) := BodyClose (Body (resp st)) in
        (e, Some {| resp := {| StatusCode := StatusCode (resp st); Body := w |};
                    closed := true;
                    released := S (released st) |})
  end.

(** [func (s *JSONStream) Next(v any) error] *)
Definition Next (s : option JSONStream) (v : T)
  : option error * T * option JSONStream :=
  match s with
  | None => (Some (errorString "nil stream"), v, None)
  | Some st =>
      if closed st then (Some io_EOF, v, Some st)
      else
        let '(e, v', w) := Decode (Body (resp st)) v in
        let s1 := Some (with_body st w) in
        match e with
        | Some err =>
            if errors_Is err io_EOF
            then (Some io_EOF, v', snd (Close s1))
            else (Some err, v', snd (Close s1))
        | None => (None, v', s1)
        end
  end.

(** The [for] loop of [Iterate]. It ends only when [Next] or the callback
    reports an error, so the model takes a bound on the iterations; [None]
    means the bound was reached. *)
Fixpoint Iterate_loop (fuel : nat) (s : option JSONStream)
    (fn : T -> C -> option error * C) (c : C)
  : option (option error * option JSONStream * C) :=
  match fuel with
  | O => None
  | S fuel' =>
      let '(e, item, s1) := Next s zero in
      match e with
      | Some err =>
          if errors_Is err io_EOF then Some (None, s1, c)
          else Some (Some err, s1, c)
      | None =>
          let '(r, c1) := fn item c in
          match r with
          | Some err =>
              if errors_Is err ErrStopIteration then
                let '(cerr, s2) := Close s1 in
                match cerr with
                | Some ce =>
                    if negb (errors_Is ce io_EOF) then Some (Some ce, s2, c1)
                    else Some (None, s2, c1)
                | None => Some (None, s2, c1)
                end
              else Some (Some err, snd (Close s1), c1)
          | None => Iterate_loop fuel' s1 fn c1
          end
      end
  end.

(** [func Iterate[T any](s *JSONStream, fn func(item *T) error) error] *)
Definition Iterate (fuel : nat) (s : option JSONStream)
    (fn : option (T -> C -> option error * C)) (c : C)
  : option (option error * option JSONStream * C) :=
  match s with
  | None => Some (Some (errorString "nil stream"), s, c)
  | Some _ =>
      match fn with
      | None => Some (Some (errorString "nil iterator callback"), s, c)
      | Some f => Iterate_loop fuel s f c
      end
  end.

(** [func (s *JSONStream) StatusCode() int]; a stream built by
    [newJSONStream] always has a response. *)
Definition StatusCode_of (s : option JSONStream) : Z :=
  match s with
  | None => 0
  | Some st => StatusCode (resp st)
  end.

(** *** What the loop sees on the wire *)

(** [Records w vs w']: read with fresh destinations from [w], the decoder
    yields the records [vs], one after the other, and then reports
    end-of-stream, leaving the wire at [w']. *)
Inductive Records : W -> list T -> W -> Prop :=
| Records_end (w : W) (e : error) (v : T) (w' : W) :
    Decode w zero = (Some e, v, w') ->
    errors_Is e io_EOF = true ->
    Records w [] w'
| Records_item (w : W) (v : T) (w1 : W) (vs : list T) (w' : W) :
    Decode w zero = (None, v, w1) ->
    Records w1 vs w' ->
    Records w (v :: vs) w'.

(** [Delivered fn w c vs w' c']: the decoder yields the records [vs] from
    [w], leaving the wire at [w'], and the callback accepts each of them in
    turn, taking its state from [c] to [c']. *)
Inductive Delivered (fn : T -> C -> option error * C)
  : W -> C -> list T -> W -> C -> Prop :=
| Delivered_none (w : W) (c : C) : Delivered fn w c [] w c
| Delivered_item (w : W) (c : C) (v : T) (w1 : W) (c1 : C)
    (vs : list T) (w' : W) (c' : C) :
    Decode w zero = (None, v, w1) ->
    fn v c = (None, c1) ->
    Delivered fn w1 c1 vs w' c' ->
    Delivered fn w c (v :: vs) w' c'.

(** The calls a client can make on a stream handle. *)
Inductive call : Type :=
| CallNext (dst : T)
| CallClose.

Definition perform (s : option JSONStream) (k : call) : option JSONStream :=
  match k with
  | CallNext dst => snd (Next s dst)
  | CallClose => snd (Close s)
  end.

Definition perform_all (s : option JSONStream) (ks : list call)
  : option JSONStream :=
  fold_left perform ks s.

(** The body has been closed exactly when the stream is marked closed. *)
Definition released_iff_closed (s : option JSONStream) : Prop :=
  match s with
  | None => True
  | Some st => released st = if closed st then 1%nat else 0%nat
  end.

(** *** Close and Next *)

Lemma with_body_same (st : JSONStream) : with_body st (Body (resp st)) = st.
Proof. destruct st as [[code w] cl n]. reflexivity. Qed.

Lemma with_body_twice (st : JSONStream) (w1 w2 : W) :
  with_body (with_body st w1) w2 = with_body st w2.
Proof. reflexivity. Qed.

Lemma Close_of_closed (st : JSONStream) :
  closed st = true -> Close (Some st) = (None, Some st).
Proof. intros H. unfold Close. rewrite H. reflexivity. Qed.

Lemma Close_of_open (st : JSONStream) :
  closed st = false ->
  Close (Some st) =
    (fst (BodyClose (Body (resp st))),
     Some {| resp := {| StatusCode := StatusCode (resp st);
                        Body := snd (BodyClose (Body (resp st))) |};
             closed := true;
             released := S (released st) |}).
Proof.
  intros H. unfold Close. rewrite H.
  destruct (BodyClose (Body (resp st))) as [e w]. reflexivity.
Qed.

Lemma Close_closes (st : JSONStream) :
  exists st', snd (Close (Some st)) = Some st' /\ closed st' = true.
Proof.
  destruct (closed st) eqn:H.
  - rewrite Close_of_closed by assumption. eauto.
  - rewrite Close_of_open by assumption. simpl. eauto.
Qed.

Lemma Next_of_closed (st : JSONStream) (v : T) :
  closed st = true -> Next (Some st) v = (Some io_EOF, v, Some st).
Proof. intros H. unfold Next. rewrite H. reflexivity. Qed.

Lemma Next_error_closes (st : JSONStream) (v v' : T) (e : error)
    (s' : option JSONStream) :
  Next (Some st) v = (Some e, v', s') ->
  exists st', s' = Some st' /\ closed st' = true.
Proof.
  unfold Next. destruct (closed st) eqn:H.
  - intros [= <- <- <-]. eauto.
  - destruct (Decode (Body (resp st)) v) as [[[err|] d] w].
    + destruct (Close_closes (with_body st w)) as (st' & Hs & Hc).
      destruct (errors_Is err io_EOF); intros [= <- <- <-]; eauto.
    + discriminate.
Qed.

Lemma Close_keeps_invariant (s : option JSONStream) :
  released_iff_closed s -> released_iff_closed (snd (Close s)).
Proof.
  destruct s as [st|]; [|exact id]. intros H.
  destruct (closed st) eqn:Hc.
  - rewrite Close_of_closed by assumption. exact H.
  - rewrite Close_of_open by assumption. simpl in *.
    rewrite Hc in H. rewrite H. reflexivity.
Qed.

Lemma Next_keeps_invariant (s : option JSONStream) (v : T) :
  released_iff_closed s -> released_iff_closed (snd (Next s v)).
Proof.
  destruct s as [st|]; [|exact id]. intros H. unfold Next.
  destruct (closed st) eqn:Hc; [exact H|].
  destruct (Decode (Body (resp st)) v) as [[[err|] d] w].
  - assert (Hw : released_iff_closed (Some (with_body st w)))
      by (simpl in *; rewrite Hc in *; assumption).
    apply Close_keeps_invariant in Hw.
    destruct (errors_Is err io_EOF); exact Hw.
  - simpl in *. rewrite Hc in *. assumption.
Qed.

Lemma perform_all_keeps_invariant (ks : list call) (s : option JSONStream) :
  released_iff_closed s -> released_iff_closed (perform_all s ks).
Proof.
  revert s. induction ks as [|k ks IH]; intros s H; [exact H|].
  apply IH. destruct k; [apply Next_keeps_invariant|apply Close_keeps_invariant];
    exact H.
Qed.

Lemma Close_again (n : nat) (st : JSONStream) :
  closed st = true ->
  Nat.iter n (fun s => snd (Close s)) (Some st) = Some st.
Proof.
  intros H. induction n as [|n IH]; [reflexivity|].
  simpl. rewrite IH, Close_of_closed by assumption. reflexivity.
Qed.

Lemma Close_nil_again (n : nat) :
  Nat.iter n (fun s => snd (Close s)) None = None.
Proof. induction n as [|n IH]; [reflexivity|]. simpl. rewrite IH. reflexivity. Qed.

(** *** The loop of Iterate *)

Lemma Next_item (st : JSONStream) (w : W) (v : T) (w1 : W) :
  closed st = false ->
  Decode w zero = (None, v, w1) ->
  Next (Some (with_body st w)) zero = (None, v, Some (with_body st w1)).
Proof. intros Hc Hd. unfold Next. simpl. rewrite Hc, Hd. reflexivity. Qed.

Lemma Iterate_loop_Delivered (fn : T -> C -> option error * C)
    (st : JSONStream) (vs : list T) (w : W) (c : C) (w' : W) (c' : C)
    (k : nat) :
  closed st = false ->
  Delivered fn w c vs w' c' ->
  Iterate_loop (length vs + k) (Some (with_body st w)) fn c =
  Iterate_loop k (Some (with_body st w')) fn c'.
Proof.
  intros Hc Hd. induction Hd as [|w c v w1 c1 vs w' c' Hdec Hfn _ IH];
    [reflexivity|].
  cbn [length Nat.add Iterate_loop].
  rewrite (Next_item st w v w1) by assumption.
  rewrite Hfn. exact IH.
Qed.

Lemma Records_Delivered (fn : T -> C -> option error * C)
    (w : W) (vs : list T) (w' : W) (c : C) :
  (forall v c0, fst (fn v c0) = None) ->
  Records w vs w' ->
  exists (w1 : W) (e : error) (v : T),
    Delivered fn w c vs w1 (fold_left (fun c0 v0 => snd (fn v0 c0)) vs c) /\
    Decode w1 zero = (Some e, v, w') /\ errors_Is e io_EOF = true.
Proof.
  intros Hok Hr. revert c.
  induction Hr as [w e v w' Hdec He|w v w1 vs w' Hdec _ IH]; intros c.
  - exists w, e, v. split; [constructor|]. auto.
  - destruct (IH (snd (fn v c))) as (w2 & e & v2 & Hd & Hdec2 & He).
    exists w2, e, v2. split; [|auto].
    econstructor; [exact Hdec| |exact Hd].
    specialize (Hok v c). destruct (fn v c) as [r c1]. simpl in *. congruence.
Qed.

(** The stream [st] after its body, left at [w], has been closed. *)
Definition closed_at (st : JSONStream) (w : W) : JSONStream :=
  {| resp := {| StatusCode := StatusCode (resp st);
                Body := snd (BodyClose w) |};
     closed := true;
     released := S (released st) |}.

Lemma Close_with_body (st : JSONStream) (w : W) :
  closed st = false ->
  Close (Some (with_body st w)) = (fst (BodyClose w), Some (closed_at st w)).
Proof. intros H. rewrite Close_of_open by exact H. reflexivity. Qed.

(** C1. On an open stream whose wire holds the records [vs] followed by
    end-of-stream, and with a callback that always returns nil, [Iterate]
    returns nil (for every bound above the number of records); the callback
    has been applied to each record once, in the order of the wire, each
    record decoded into a fresh zero value; the stream is left closed. *)
Theorem Iterate_delivers_records_in_order
    (st : JSONStream) (fn : T -> C -> option error * C) (c : C)
    (vs : list T) (w' : W) (fuel : nat) :
  closed st = false ->
  Records (Body (resp st)) vs w' ->
  (forall v c0, fst (fn v c0) = None) ->
  (length vs < fuel)%nat ->
  Iterate fuel (Some st) (Some fn) c =
    Some (None, Some (closed_at st w'),
          fold_left (fun c0 v => snd (fn v c0)) vs c).
Proof.
  intros Hc Hr Hok Hfuel.
  destruct (Records_Delivered fn _ _ _ c Hok Hr) as (w1 & e & v & Hd & Hdec & He).
  replace fuel with (length vs + S (fuel - S (length vs)))%nat by lia.
  unfold Iterate. rewrite <- (with_body_same st) at 1.
  rewrite (Iterate_loop_Delivered fn st vs _ c w1 _ _ Hc Hd).
  cbn [Iterate_loop]. unfold Next. cbn [with_body closed resp Body].
  rewrite Hc, Hdec, He, with_body_twice, Close_with_body by exact Hc.
  reflexivity.
Qed.


(** C3. A closed stream stays closed and quiet. [Close] leaves the stream
    closed, and so does every [Next] that reports an error. On an open
    stream, [Close] closes the body once and returns what that gave; a
    [Next] whose decoder reports the end of the underlying stream returns
    [io.EOF], and one whose decoder reports any other error returns that
    error, both leaving the stream closed with its body closed; a [Next]
    whose decoder succeeds leaves the stream open. On a closed stream
    [Next] reports [io.EOF] and touches neither the destination nor the
    wire, and [Close], called any number of times, returns nil and changes
    nothing; the same holds for a nil handle. Whatever calls are made on a
    new stream, its body is closed at most once. *)
Theorem closed_stream_stays_closed :
  (forall st : JSONStream,
     exists st', snd (Close (Some st)) = Some st' /\ closed st' = true) /\
  (forall (st : JSONStream) (v v' : T) (e : error) (s' : option JSONStream),
     Next (Some st) v = (Some e, v', s') ->
     exists st', s' = Some st' /\ closed st' = true) /\
  (forall st : JSONStream,
     closed st = false ->
     Close (Some st) =
       (fst (BodyClose (Body (resp st))),
        Some (closed_at st (Body (resp st))))) /\
  (forall (st : JSONStream) (v v' : T) (e : error) (w : W),
     closed st = false ->
     Decode (Body (resp st)) v = (Some e, v', w) ->
     Next (Some st) v =
       (Some (if errors_Is e io_EOF then io_EOF else e), v',
        Some (closed_at st w))) /\
  (forall (st : JSONStream) (v v' : T) (w : W),
     closed st = false ->
     Decode (Body (resp st)) v = (None, v', w) ->
     Next (Some st) v = (None, v', Some (with_body st w))) /\
  (forall (st : JSONStream) (v : T),
     closed st = true -> Next (Some st) v = (Some io_EOF, v, Some st)) /\
  (forall (st : JSONStream) (n : nat),
     closed st = true ->
     let s := Nat.iter n (fun s => snd (Close s)) (Some st) in
     s = Some st /\ Close s = (None, Some st)) /\
  (forall n : nat,
     let s := Nat.iter n (fun s => snd (Close s)) None in
     s = None /\ Close s = (None, None)) /\
  (forall (r : Response) (ks : list call),
     match perform_all (Some (newJSONStream r)) ks with
     | Some st => released st = if closed st then 1%nat else 0%nat
     | None => False
     end).
Proof.
  split; [exact Close_closes|].
  split; [exact Next_error_closes|].
  split.
  { intros st Hc. rewrite Close_of_open by exact Hc. reflexivity. }
  split.
  { intros st v v' e w Hc Hdec. unfold Next. rewrite Hc, Hdec. cbv zeta.
    rewrite Close_with_body by exact Hc.
    destruct (errors_Is e io_EOF); reflexivity. }
  split.
  { intros st v v' w Hc Hdec. unfold Next. rewrite Hc, Hdec. reflexivity. }
  split; [exact Next_of_closed|].
  split.
  { intros st n H. cbv zeta. rewrite Close_again by exact H.
    split; [reflexivity|]. apply Close_of_closed, H. }
  split.
  { intros n. cbv zeta. rewrite Close_nil_again. split; reflexivity. }
  intros r ks.
  pose proof (perform_all_keeps_invariant ks (Some (newJSONStream r)) eq_refl)
    as Hinv.
  revert Hinv.
  assert (Hsome : forall s, is_Some s -> is_Some (perform_all s ks)).
  { induction ks as [|k ks IH]; intros s Hs; [exact Hs|].
    apply IH. destruct Hs as [st ->]. destruct k as [dst|]; unfold perform.
    - unfold Next. destruct (closed st); [eauto|].
      destruct (Decode (Body (resp st)) dst) as [[[err|] d] w]; [|eauto].
      destruct (Close_closes (with_body st w)) as (st' & Hs & _).
      cbv zeta. destruct (errors_Is err io_EOF); cbn [snd]; rewrite Hs; eauto.
    - destruct (Close_closes st) as (st' & Hs & _). rewrite Hs. eauto. }
  destruct (Hsome (Some (newJSONStream r))) as [st Hst]; [eauto|].
  rewrite Hst. exact id.
Qed.

(** C8. With a nil stream handle or a nil callback, [Iterate] returns an
    error at once, whatever the bound on the loop: the stream, its wire and
    the state of the callback are as they were, so [Next] was not called
    and no byte was read. *)
Theorem Iterate_rejects_nil_arguments :
  (forall (fuel : nat) (fn : option (T -> C -> option error * C)) (c : C),
     Iterate fuel None fn c = Some (Some (errorString "nil stream"), None, c)) /\
  (forall (fuel : nat) (st : JSONStream) (c : C),
     Iterate fuel (Some st) None c =
       Some (Some (errorString "nil iterator callback"), Some st, c)).
Proof. split; reflexivity. Qed.

(** *** Further behaviour of the reader and the iterator *)

Lemma Next_success_open (st : JSONStream) (v v' : T) (s1 : option JSONStream) :
  Next (Some st) v = (None, v', s1) ->
  closed st = false /\ exists w, s1 = Some (with_body st w).
Proof.
  unfold Next. destruct (closed st); [discriminate|].
  destruct (Decode (Body (resp st)) v) as [[[err|] d] w]; cbv zeta.
  - destruct (errors_Is err io_EOF); discriminate.
  - intros [= <- <-]. eauto.
Qed.

Lemma closed_released (s : option JSONStream) (st : JSONStream) :
  released_iff_closed s -> s = Some st -> closed st = true ->
  released st = 1%nat.
Proof. intros H -> Hc. simpl in H. rewrite Hc in H. exact H. Qed.

Lemma Iterate_loop_closes (fuel : nat) (fn : T -> C -> option error * C) :
  forall (st : JSONStream) (c : C) (e : option error)
         (s' : option JSONStream) (c' : C),
    Iterate_loop fuel (Some st) fn c = Some (e, s', c') ->
    exists st', s' = Some st' /\ closed st' = true /\
                (released_iff_closed (Some st) -> released st' = 1%nat).
Proof.
  induction fuel as [|fuel IH]; intros st c e s' c'; [discriminate|].
  cbn [Iterate_loop].
  destruct (Next (Some st) zero) as [[e1 item] s1] eqn:HN.
  pose proof (Next_keeps_invariant (Some st) zero) as Hinv.
  rewrite HN in Hinv. cbn [snd] in Hinv.
  destruct e1 as [err|].
  - destruct (Next_error_closes _ _ _ _ _ HN) as (st1 & -> & Hc1).
    assert (Hrel : released_iff_closed (Some st) -> released st1 = 1%nat)
      by (intros H; apply (closed_released (Some st1)); auto).
    destruct (errors_Is err io_EOF); intros [= <- <- <-]; eauto.
  - destruct (Next_success_open _ _ _ _ HN) as (Hopen & w & ->).
    destruct (fn item c) as [[err|] c1].
    + destruct (Close_closes (with_body st w)) as (st2 & Hs2 & Hc2).
      pose proof (Close_keeps_invariant (Some (with_body st w))) as Hinv2.
      rewrite Hs2 in Hinv2.
      assert (Hrel : released_iff_closed (Some st) -> released st2 = 1%nat)
        by (intros H; apply (closed_released (Some st2)); auto).
      destruct (errors_Is err ErrStopIteration).
      * destruct (Close (Some (with_body st w))) as [cerr s2].
        cbn [snd] in Hs2. subst s2.
        destruct cerr as [ce|]; [destruct (negb (errors_Is ce io_EOF))|];
          intros [= <- <- <-]; eauto.
      * rewrite Hs2. intros [= <- <- <-]. eauto.
    + intros Hrun. destruct (IH _ _ _ _ _ Hrun) as (st' & -> & Hc' & Hrel).
      exists st'. split; [reflexivity|]. split; [exact Hc'|]. auto.
Qed.

(** A decode error in the middle of a stream: after the records [vs] have
    been delivered, an error of the decoder that is not end-of-stream is
    returned by [Iterate] as it is; the stream is closed, and the callback
    has seen [vs] and nothing else. *)
Theorem Iterate_propagates_decode_error
    (st : JSONStream) (fn : T -> C -> option error * C) (c : C)
    (vs : list T) (w1 : W) (c1 : C) (v : T) (w2 : W) (e : error)
    (fuel : nat) :
  closed st = false ->
  Delivered fn (Body (resp st)) c vs w1 c1 ->
  Decode w1 zero = (Some e, v, w2) ->
  errors_Is e io_EOF = false ->
  (length vs < fuel)%nat ->
  Iterate fuel (Some st) (Some fn) c =
    Some (Some e, Some (closed_at st w2), c1).
Proof.
  intros Hc Hd Hdec He Hfuel.
  replace fuel with (length vs + S (fuel - S (length vs)))%nat by lia.
  unfold Iterate. rewrite <- (with_body_same st) at 1.
  rewrite (Iterate_loop_Delivered fn st vs _ c w1 c1 _ Hc Hd).
  cbn [Iterate_loop]. unfold Next. cbn [with_body closed resp Body].
  rewrite Hc, Hdec, He, with_body_twice, Close_with_body by exact Hc.
  cbn [snd]. rewrite He. reflexivity.
Qed.

(** Whenever [Iterate] returns after entering its loop, with nil, with the
    error of the decoder or with the error of the callback, the stream is
    closed; if the stream was new or had been used only through [Next] and
    [Close], its body has been closed exactly once. *)
Theorem Iterate_leaves_stream_closed
    (fuel : nat) (st : JSONStream) (fn : T -> C -> option error * C) (c : C)
    (e : option error) (s' : option JSONStream) (c' : C) :
  Iterate fuel (Some st) (Some fn) c = Some (e, s', c') ->
  exists st', s' = Some st' /\ closed st' = true /\
              (released st = (if closed st then 1 else 0)%nat ->
               released st' = 1%nat).
Proof. apply Iterate_loop_closes. Qed.


(** [n] calls of [Next], each into a fresh destination: what each call
    returned (the item, or the error), and the stream afterwards. *)
Fixpoint pull (n : nat) (s : option JSONStream)
  : list (error + T) * option JSONStream :=
  match n with
  | O => ([], s)
  | S n' =>
      let '(e, v, s1) := Next s zero in
      let '(rs, s2) := pull n' s1 in
      (match e with Some err => inl err | None => inr v end :: rs, s2)
  end.

Lemma pull_closed (n : nat) (st : JSONStream) :
  closed st = true ->
  pull n (Some st) = (replicate n (inl io_EOF), Some st).
Proof.
  intros Hc. induction n as [|n IH]; [reflexivity|].
  cbn [pull]. rewrite Next_of_closed, IH by exact Hc. reflexivity.
Qed.

Lemma pull_Records (vs : list T) (w w' : W) (st : JSONStream) (k : nat) :
  closed st = false ->
  Records w vs w' ->
  pull (length vs + S k) (Some (with_body st w)) =
    (map inr vs ++ replicate (S k) (inl io_EOF), Some (closed_at st w')).
Proof.
  intros Hc Hr. induction Hr as [w e v w' Hdec He|w v w1 vs w' Hdec _ IH].
  - cbn [length Nat.add pull map app]. unfold Next.
    cbn [with_body closed resp Body]. rewrite Hc, Hdec, He, with_body_twice.
    rewrite Close_with_body by exact Hc. cbn [snd].
    rewrite pull_closed by reflexivity. reflexivity.
  - cbn [length Nat.add pull map app].
    rewrite (Next_item st w v w1), IH by assumption. reflexivity.
Qed.

(** Reading a stream by hand: on an open stream whose wire holds the
    records [vs], the first [length vs] calls of [Next] return them in
    order, the next call reports [io.EOF] and closes the stream, and so
    does every later call. *)
Theorem Next_reads_records_then_EOF
    (st : JSONStream) (vs : list T) (w' : W) (k : nat) :
  closed st = false ->
  Records (Body (resp st)) vs w' ->
  pull (length vs + S k) (Some st) =
    (map inr vs ++ replicate (S k) (inl io_EOF), Some (closed_at st w')).
Proof.
  intros Hc Hr. rewrite <- (with_body_same st) at 1.
  apply pull_Records; assumption.
Qed.

End JSONStream.

(** *** The streams of the package's tests *)

Import Json (dq, nl).

(** [testDocument], the item type of the tests: one field, tagged "id". *)
Record testDocument := { ID : Z }.

Definition is_id (k : string) : bool :=
  bool_decide (k = "id") || bool_decide (k = "ID")
  || bool_decide (k = "Id") || bool_decide (k = "iD").

(** What the decoder does with one member of an object: the value of the
    key "id" (matched without regard to case) must be null or an integer
    that fits [int]; other keys are skipped. The first error is kept. *)
Definition set_member (acc : option error * testDocument)
    (kv : string * Json.value) : option error * testDocument :=
  let '(e, d) := acc in
  if is_id kv.1 then
    match kv.2 with
    | Json.JNull => acc
    | Json.JNumber n =>
        if (- 2 ^ 63 <=? n) && (n <? 2 ^ 63) then (e, {| ID := n |})
        else (Some (default Json.UnmarshalTypeError e), d)
    | _ => (Some (default Json.UnmarshalTypeError e), d)
    end
  else acc.

(** Storing a decoded value into a [*testDocument]. *)
Definition into_testDocument (v : Json.value) (dst : testDocument)
  : option error * testDocument :=
  match v with
  | Json.JNull => (None, dst)
  | Json.JObject ms => fold_left set_member ms (None, dst)
  | _ => (Some Json.UnmarshalTypeError, dst)
  end.

Definition Decode_testDocument
  : string -> testDocument -> option error * testDocument * string :=
  Json.Decode into_testDocument.

(** [io.NopCloser]: closing does nothing and returns nil. *)
Definition NopCloser (w : string) : option error * string := (None, w).

(** [newTestStream]. *)
Definition newTestStream (payload : string) : JSONStream :=
  newJSONStream {| StatusCode := 200; Body := payload |}.

(** The payload of TestJSONStreamIterate: two records, one per line. *)
Definition two_records : string :=
  dq "{'id':1}" +:+ nl +:+ dq "{'id':2}" +:+ nl.

(** The callbacks of the tests: both append the id to [ids]; the second
    then asks to stop. *)
Definition collect (doc : testDocument) (ids : list Z)
  : option error * list Z := (None, ids ++ [ID doc]).

Definition collect_and_stop (doc : testDocument) (ids : list Z)
  : option error * list Z := (Some ErrStopIteration, ids ++ [ID doc]).

Definition Iterate_test :=
  @Iterate testDocument string (list Z) {| ID := 0 |} Decode_testDocument NopCloser.

(** TestJSONStreamIterate, run on the model. *)
Example TestJSONStreamIterate :
  Iterate_test 3 (Some (newTestStream two_records)) (Some collect) [] =
    Some (None,
          Some {| resp := {| StatusCode := 200; Body := "" |};
                  closed := true; released := 1 |},
          [1; 2]).
Proof. vm_compute. reflexivity. Qed.

(** TestJSONStreamIterateStop, run on the model: the second record is left
    unread on the wire. *)
Example TestJSONStreamIterateStop :
  Iterate_test 3 (Some (newTestStream two_records)) (Some collect_and_stop) [] =
    Some (None,
          Some {| resp := {| StatusCode := 200; Body := nl +:+ dq "{'id':2}" +:+ nl |};
                  closed := true; released := 1 |},
          [1]).
Proof. vm_compute. reflexivity. Qed.

(** A decode error in the middle of a stream closes it: the next call of
    [Next] reports end-of-stream and leaves the wire alone. *)
Example Next_after_decode_error :
  let s0 := Some (newTestStream (dq "{'id':1}" +:+ nl +:+ "oops" +:+ nl +:+ dq "{'id':3}")) in
  let next := Next Decode_testDocument NopCloser in
  let '(e1, _, s1) := next s0 {| ID := 0 |} in
  let '(e2, _, s2) := next s1 {| ID := 0 |} in
  let '(e3, _, s3) := next s2 {| ID := 0 |} in
  e1 = None /\ e2 = Some Json.SyntaxError /\ e3 = Some io_EOF /\ s3 = s2.
Proof. vm_compute. repeat split. Qed.

(** C1, on the two-record stream of the tests: the callback is called
    twice and collects 1 then 2. *)
Lemma Iterate_two_records :
  Iterate_test 3 (Some (newTestStream two_records)) (Some collect) [] =
    Some (None,
          Some (closed_at NopCloser (newTestStream two_records) ""),
          [1; 2]).
Proof.
  apply (Iterate_delivers_records_in_order {| ID := 0 |} Decode_testDocument
           NopCloser (newTestStream two_records) collect []
           [{| ID := 1 |}; {| ID := 2 |}] "" 3).
  - reflexivity.
  - eapply Records_item; [vm_compute; reflexivity|].
    eapply Records_item; [vm_compute; reflexivity|].
    eapply Records_end; [vm_compute; reflexivity|reflexivity].
  - reflexivity.
  - simpl. lia.
Defined.


(** An error that only shares the text of the sentinel is not the sentinel,
    and one that wraps the sentinel is recognised as it. *)
Example sentinel_by_identity :
  errors_Is (errorString "driver: stop iteration") ErrStopIteration = false /\
  errors_Is (wrapError "callback: " ErrStopIteration) ErrStopIteration = true.
Proof. split; reflexivity. Qed.

(** *** The further behaviour, on streams like those of the tests *)

(** A stream whose second line is not JSON. *)
Definition broken_second : string := dq "{'id':1}" +:+ nl +:+ "oops".

Definition closed_two_records : JSONStream :=
  {| resp := {| StatusCode := 200; Body := "" |};
     closed := true; released := 1 |}.

Lemma Iterate_broken_second :
  Iterate_test 5 (Some (newTestStream broken_second)) (Some collect) [] =
    Some (Some Json.SyntaxError,
          Some (closed_at NopCloser (newTestStream broken_second) "oops"),
          [1]).
Proof.
  apply (Iterate_propagates_decode_error {| ID := 0 |} Decode_testDocument
           NopCloser (newTestStream broken_second) collect []
           [{| ID := 1 |}] (nl +:+ "oops") [1] {| ID := 0 |} "oops"
           Json.SyntaxError 5).
  - reflexivity.
  - eapply Delivered_item; [vm_compute; reflexivity|reflexivity|].
    apply Delivered_none.
  - vm_compute. reflexivity.
  - reflexivity.
  - simpl. lia.
Defined.

Lemma Iterate_two_records_closed :
  exists st',
    Some closed_two_records = Some st' /\ closed st' = true /\
    (released (newTestStream two_records) =
       (if closed (newTestStream two_records) then 1 else 0)%nat ->
     released st' = 1%nat).
Proof.
  apply (Iterate_leaves_stream_closed {| ID := 0 |} Decode_testDocument
           NopCloser 3 (newTestStream two_records) collect [] None
           (Some closed_two_records) [1; 2]).
  vm_compute. reflexivity.
Defined.


Lemma Next_on_two_records :
  pull {| ID := 0 |} Decode_testDocument NopCloser 4
       (Some (newTestStream two_records)) =
    ([inr {| ID := 1 |}; inr {| ID := 2 |}; inl io_EOF; inl io_EOF],
     Some (closed_at NopCloser (newTestStream two_records) "")).
Proof.
  apply (Next_reads_records_then_EOF {| ID := 0 |} Decode_testDocument
           NopCloser (newTestStream two_records)
           [{| ID := 1 |}; {| ID := 2 |}] "" 1).
  - reflexivity.
  - eapply Records_item; [vm_compute; reflexivity|].
    eapply Records_item; [vm_compute; reflexivity|].
    eapply Records_end; [vm_compute; reflexivity|reflexivity].
Defined.

End Stream.

(** ** The dynamic-field entities *)

Module Types.

Import Json (value, JString).

Section Codec.

(** [json.Marshal] of a [map[string]any] and [json.Unmarshal] into an empty
    [map[string]any]. *)
Variable Marshal : gmap string value -> error + string.
Variable Unmarshal : string -> error + gmap string value.

(** [Index]. [Options] is a Go map: [None] is the nil map. *)
Record Index := {
  Name : string;
  Type_ : string;
  Options : option (gmap string value)
}.

(** [CreateIndexRequest]. *)
Record CreateIndexRequest := {
  ReqName : string;
  ReqType : string;
  ReqOptions : option (gmap string value)
}.

(** [for k, v := range options { m[k] = v }]; ranging over a nil map does
    nothing. *)
Definition copy_into (options : option (gmap string value))
    (m : gmap string value) : gmap string value :=
  map_fold (fun k v acc => <[k := v]> acc) m (default ∅ options).

(** The map [m] that [Index.MarshalJSON] builds. *)
Definition Index_flatten (i : Index) : gmap string value :=
  copy_into (Options i)
    (<["type" := JString (Type_ i)]> (<["name" := JString (Name i)]> ∅)).

(** [func (i Index) MarshalJSON() ([]byte, error)] *)
Definition Index_MarshalJSON (i : Index) : error + string :=
  Marshal (Index_flatten i).

(** The type assertion [raw[key].(string)]. *)
Definition string_at (raw : gmap string value) (key : string) : option string :=
  match raw !! key with
  | Some (JString v) => Some v
  | _ => None
  end.

(** [func (i *Index) UnmarshalJSON(data []byte) error]: the index behind
    the pointer, before and after. *)
Definition Index_UnmarshalJSON (i : Index) (data : string)
  : option error * Index :=
  match Unmarshal data with
  | inl err => (Some err, i)
  | inr raw =>
      let name := default (Name i) (string_at raw "name") in
      let type := default (Type_ i) (string_at raw "type") in
      let raw' := delete "type" (delete "name" raw) in
      (None,
       {| Name := name;
          Type_ := type;
          Options := if decide (size raw' = 0%nat) then None else Some raw' |})
  end.

(** The map [m] that [CreateIndexRequest.MarshalJSON] builds. *)
Definition CreateIndexRequest_flatten (r : CreateIndexRequest)
  : gmap string value :=
  let m := ∅ in
  let m := if decide (ReqName r = "") then m
           else <["name" := JString (ReqName r)]> m in
  let m := if decide (ReqType r = "") then m
           else <["type" := JString (ReqType r)]> m in
  copy_into (ReqOptions r) m.

(** [func (r CreateIndexRequest) MarshalJSON() ([]byte, error)] *)
Definition CreateIndexRequest_MarshalJSON (r : CreateIndexRequest)
  : error + string :=
  Marshal (CreateIndexRequest_flatten r).

(** Copying the options over [m] is the union that prefers the options. *)
Lemma copy_into_union (options : option (gmap string value))
    (m : gmap string value) :
  copy_into options m = default ∅ options ∪ m.
Proof.
  unfold copy_into.
  apply (map_fold_weak_ind (fun r o => r = o ∪ m)).
  - symmetry. apply (left_id_L ∅ (∪)).
  - intros k v o r Hk ->. apply insert_union_l.
Qed.

(** An options bag with no entry is reported as the nil map. *)
Definition absent_if_empty (options : option (gmap string value))
  : option (gmap string value) :=
  match options with
  | Some o => if decide (o = ∅) then None else Some o
  | None => None
  end.

Lemma Index_flatten_lookup_fixed (i : Index) :
  default ∅ (Options i) !! "name" = None ->
  default ∅ (Options i) !! "type" = None ->
  string_at (Index_flatten i) "name" = Some (Name i) /\
  string_at (Index_flatten i) "type" = Some (Type_ i).
Proof.
  intros Hn Ht. unfold string_at, Index_flatten. rewrite copy_into_union.
  rewrite !lookup_union_r by assumption.
  rewrite lookup_insert_ne by discriminate.
  rewrite lookup_insert_eq. rewrite lookup_insert_eq. auto.
Qed.

Lemma Index_flatten_delete_fixed (i : Index) :
  default ∅ (Options i) !! "name" = None ->
  default ∅ (Options i) !! "type" = None ->
  delete "type" (delete "name" (Index_flatten i)) = default ∅ (Options i).
Proof.
  intros Hn Ht. unfold Index_flatten. rewrite copy_into_union.
  apply map_eq. intros k.
  destruct (decide (k = "type")) as [->|Hkt].
  { rewrite lookup_delete_eq. symmetry. exact Ht. }
  rewrite lookup_delete_ne by congruence.
  destruct (decide (k = "name")) as [->|Hkn].
  { rewrite lookup_delete_eq. symmetry. exact Hn. }
  rewrite lookup_delete_ne by congruence.
  rewrite lookup_union, !lookup_insert_ne, lookup_empty by congruence.
  destruct (default ∅ (Options i) !! k); reflexivity.
Qed.

(** C5 (as amended). Let the options bag of an index hold neither the key
    "name" nor the key "type", and let the JSON library read back from the
    bytes of [MarshalJSON] the map that was written. Then [UnmarshalJSON] of
    those bytes, into any index, recovers the name, the type and the
    options bag; a bag that was nil or empty comes back as the nil map. *)
Theorem Index_roundtrip (i i0 : Index) (data : string) :
  default ∅ (Options i) !! "name" = None ->
  default ∅ (Options i) !! "type" = None ->
  Index_MarshalJSON i = inr data ->
  Unmarshal data = inr (Index_flatten i) ->
  Index_UnmarshalJSON i0 data =
    (None, {| Name := Name i; Type_ := Type_ i;
              Options := absent_if_empty (Options i) |}).
Proof.
  intros Hn Ht _ Hback. unfold Index_UnmarshalJSON. rewrite Hback.
  destruct (Index_flatten_lookup_fixed i Hn Ht) as [-> ->].
  rewrite (Index_flatten_delete_fixed i Hn Ht). cbn [default].
  do 2 f_equal. unfold absent_if_empty.
  destruct (Options i) as [o|]; cbn [default from_option]; unfold id.
  - destruct (decide (o = ∅)) as [->|Hne].
    + rewrite map_size_empty. reflexivity.
    + rewrite decide_False; [reflexivity|].
      intros Hs. apply Hne, map_size_empty_iff, Hs.
  - rewrite map_size_empty. reflexivity.
Qed.

(** C6 (as amended). The object [CreateIndexRequest.MarshalJSON] hands to
    the JSON encoder has as keys the keys of the options together with
    "name" when the name is not empty and "type" when the type is not
    empty. The object [Index.MarshalJSON] hands to it has the keys of the
    options together with both "name" and "type", empty or not. *)
Theorem flatten_keys :
  (forall r : CreateIndexRequest,
     CreateIndexRequest_MarshalJSON r = Marshal (CreateIndexRequest_flatten r) /\
     dom (CreateIndexRequest_flatten r) =
       dom (default ∅ (ReqOptions r))
       ∪ (if decide (ReqName r = "") then ∅ else {["name"]})
       ∪ (if decide (ReqType r = "") then ∅ else {["type"]})) /\
  (forall i : Index,
     Index_MarshalJSON i = Marshal (Index_flatten i) /\
     dom (Index_flatten i) =
       dom (default ∅ (Options i)) ∪ {["name"]} ∪ {["type"]}).
Proof.
  split.
  - intros r. split; [reflexivity|].
    unfold CreateIndexRequest_flatten. cbv zeta. rewrite copy_into_union.
    rewrite dom_union_L.
    destruct (decide (ReqName r = "")) as [Hname|Hname];
      destruct (decide (ReqType r = "")) as [Htype|Htype];
      rewrite ?dom_insert_L, ?dom_empty_L; apply set_eq; intros k;
      set_unfold; tauto.
  - intros i. split; [reflexivity|].
    unfold Index_flatten. rewrite copy_into_union.
    rewrite dom_union_L, !dom_insert_L, dom_empty_L. apply set_eq; intros k.
    set_unfold; tauto.
Qed.

(** *** Further behaviour of the codec *)

Lemma copy_into_lookup (options : option (gmap string value))
    (m : gmap string value) (k : string) :
  copy_into options m !! k =
    match default ∅ options !! k with
    | Some v => Some v
    | None => m !! k
    end.
Proof.
  rewrite copy_into_union, lookup_union.
  destruct (default ∅ options !! k), (m !! k); reflexivity.
Qed.

Lemma Index_flatten_lookup (i : Index) (k : string) :
  Index_flatten i !! k =
    match default ∅ (Options i) !! k with
    | Some v => Some v
    | None =>
        if decide (k = "type") then Some (JString (Type_ i))
        else if decide (k = "name") then Some (JString (Name i))
        else None
    end.
Proof.
  unfold Index_flatten. rewrite copy_into_lookup.
  destruct (default ∅ (Options i) !! k); [reflexivity|].
  destruct (decide (k = "type")) as [->|Ht]; [apply lookup_insert_eq|].
  rewrite lookup_insert_ne by congruence.
  destruct (decide (k = "name")) as [->|Hn]; [apply lookup_insert_eq|].
  rewrite lookup_insert_ne by congruence. apply lookup_empty.
Qed.

Lemma CreateIndexRequest_flatten_lookup (r : CreateIndexRequest) (k : string) :
  CreateIndexRequest_flatten r !! k =
    match default ∅ (ReqOptions r) !! k with
    | Some v => Some v
    | None =>
        if decide (k = "type") then
          if decide (ReqType r = "") then None else Some (JString (ReqType r))
        else if decide (k = "name") then
          if decide (ReqName r = "") then None else Some (JString (ReqName r))
        else None
    end.
Proof.
  unfold CreateIndexRequest_flatten. cbv zeta. rewrite copy_into_lookup.
  destruct (default ∅ (ReqOptions r) !! k); [reflexivity|].
  destruct (decide (k = "type")) as [->|Hkt].
  { destruct (decide (ReqName r = "")), (decide (ReqType r = ""));
      rewrite ?lookup_insert_eq, ?lookup_insert_ne, ?lookup_empty by discriminate;
      reflexivity. }
  destruct (decide (k = "name")) as [->|Hkn].
  { destruct (decide (ReqName r = "")), (decide (ReqType r = ""));
      rewrite ?lookup_insert_ne, ?lookup_insert_eq, ?lookup_empty by discriminate;
      reflexivity. }
  destruct (decide (ReqName r = "")), (decide (ReqType r = ""));
    rewrite ?lookup_insert_ne, ?lookup_empty by congruence; reflexivity.
Qed.

(** What is left of [raw] once the two fixed keys are deleted. *)
Lemma delete_fixed_lookup (raw : gmap string value) (k : string) :
  delete "type" (delete "name" raw) !! k =
    if decide (k = "name" \/ k = "type") then None else raw !! k.
Proof.
  destruct (decide (k = "type")) as [->|Ht].
  { rewrite lookup_delete_eq, decide_True by auto. reflexivity. }
  rewrite lookup_delete_ne by congruence.
  destruct (decide (k = "name")) as [->|Hn].
  { rewrite lookup_delete_eq, decide_True by auto. reflexivity. }
  rewrite lookup_delete_ne, decide_False by (try intros [?|?]; congruence).
  reflexivity.
Qed.

(** The options of a decoded index: the nil map, or a map that is not
    empty and holds no fixed key. *)
Definition proper_options (options : option (gmap string value)) : Prop :=
  match options with
  | None => True
  | Some o => o <> ∅ /\ o !! "name" = None /\ o !! "type" = None
  end.

Lemma Index_UnmarshalJSON_proper (i i' : Index) (data : string) :
  Index_UnmarshalJSON i data = (None, i') -> proper_options (Options i').
Proof.
  unfold Index_UnmarshalJSON. destruct (Unmarshal data) as [err|raw];
    [discriminate|].
  cbv zeta. intros [= <-]. cbn [Options].
  destruct (decide (size (delete "type" (delete "name" raw)) = 0%nat)) as [Hs|Hs];
    [exact I|].
  split; [|split].
  - intros Hempty. apply Hs. rewrite Hempty. apply map_size_empty.
  - rewrite delete_fixed_lookup, decide_True by auto. reflexivity.
  - rewrite delete_fixed_lookup, decide_True by auto. reflexivity.
Qed.

(** The options win over the fixed fields: in the object an index or a
    request is written as, a key holds the option of that name if there is
    one; only otherwise do "name" and "type" hold the fixed fields (for a
    request, when they are not empty). *)
Theorem flatten_options_win :
  (forall (i : Index) (k : string),
     Index_flatten i !! k =
       match default ∅ (Options i) !! k with
       | Some v => Some v
       | None =>
           if decide (k = "type") then Some (JString (Type_ i))
           else if decide (k = "name") then Some (JString (Name i))
           else None
       end) /\
  (forall (r : CreateIndexRequest) (k : string),
     CreateIndexRequest_flatten r !! k =
       match default ∅ (ReqOptions r) !! k with
       | Some v => Some v
       | None =>
           if decide (k = "type") then
             if decide (ReqType r = "") then None else Some (JString (ReqType r))
           else if decide (k = "name") then
             if decide (ReqName r = "") then None else Some (JString (ReqName r))
           else None
       end).
Proof. split; [exact Index_flatten_lookup|exact CreateIndexRequest_flatten_lookup]. Qed.

(** Decoding splits any object, and never fails on one: when the JSON
    library reads [data] as the object [raw], [UnmarshalJSON] returns nil;
    the name (the type) becomes the string under "name" ("type") and stays
    what it was when that key is missing or holds something else; the
    options become the other members of [raw], never a fixed key, and the
    nil map rather than an empty one. When the library fails, its error is
    returned and the index is untouched. *)
Theorem Index_UnmarshalJSON_splits (i : Index) (data : string) :
  match Unmarshal data with
  | inl err => Index_UnmarshalJSON i data = (Some err, i)
  | inr raw =>
      exists i',
        Index_UnmarshalJSON i data = (None, i') /\
        Name i' = match raw !! "name" with
                  | Some (JString v) => v
                  | _ => Name i
                  end /\
        Type_ i' = match raw !! "type" with
                   | Some (JString v) => v
                   | _ => Type_ i
                   end /\
        (forall k, default ∅ (Options i') !! k =
                   if decide (k = "name" \/ k = "type") then None else raw !! k) /\
        Options i' <> Some ∅
  end.
Proof.
  destruct (Unmarshal data) as [err|raw] eqn:Hun.
  { unfold Index_UnmarshalJSON. rewrite Hun. reflexivity. }
  eexists. split; [unfold Index_UnmarshalJSON; rewrite Hun; reflexivity|].
  cbn [Name Type_ Options]. unfold string_at.
  split; [destruct (raw !! "name") as [[]|]; reflexivity|].
  split; [destruct (raw !! "type") as [[]|]; reflexivity|].
  destruct (decide (size (delete "type" (delete "name" raw)) = 0%nat)) as [Hs|Hs].
  - split; [|discriminate]. intros k. rewrite <- delete_fixed_lookup.
    apply map_size_empty_iff in Hs. rewrite Hs. reflexivity.
  - split; [intros k; apply delete_fixed_lookup|].
    intros [= Hempty]. apply Hs. rewrite Hempty. apply map_size_empty.
Qed.

(** From a request to the index it describes: let the options of a
    request hold neither "name" nor "type", and let the JSON library read
    [data] as the object the request is written as. Then [UnmarshalJSON]
    of [data] gives the index with the name, the type and the options of
    the request, except that an empty name (type), which the request does
    not write, leaves the name (type) the index had. *)
Theorem CreateIndexRequest_read_as_Index
    (r : CreateIndexRequest) (i0 : Index) (data : string) :
  default ∅ (ReqOptions r) !! "name" = None ->
  default ∅ (ReqOptions r) !! "type" = None ->
  Unmarshal data = inr (CreateIndexRequest_flatten r) ->
  Index_UnmarshalJSON i0 data =
    (None, {| Name := if decide (ReqName r = "") then Name i0 else ReqName r;
              Type_ := if decide (ReqType r = "") then Type_ i0 else ReqType r;
              Options := absent_if_empty (ReqOptions r) |}).
Proof.
  intros Hn Ht Hun. unfold Index_UnmarshalJSON. rewrite Hun. cbv zeta.
  assert (Hdel : delete "type" (delete "name" (CreateIndexRequest_flatten r)) =
                 default ∅ (ReqOptions r)).
  { apply map_eq. intros k. rewrite delete_fixed_lookup.
    destruct (decide (k = "name" \/ k = "type")) as [[->| ->]|Hk]; [auto..|].
    rewrite CreateIndexRequest_flatten_lookup.
    destruct (default ∅ (ReqOptions r) !! k); [reflexivity|].
    rewrite !decide_False by tauto. reflexivity. }
  rewrite Hdel. unfold string_at.
  rewrite !CreateIndexRequest_flatten_lookup, Hn, Ht.
  cbn [decide]. rewrite (decide_True (P := "type" = "type")) by reflexivity.
  rewrite (decide_False (P := "name" = "type")) by discriminate.
  rewrite (decide_True (P := "name" = "name")) by reflexivity.
  f_equal. f_equal.
  - destruct (decide (ReqName r = "")); reflexivity.
  - destruct (decide (ReqType r = "")); reflexivity.
  - unfold absent_if_empty.
    destruct (ReqOptions r) as [o|]; cbn [default from_option]; unfold id.
    + destruct (decide (o = ∅)) as [->|Hne].
      * rewrite map_size_empty. reflexivity.
      * rewrite decide_False; [reflexivity|].
        intros Hs. apply Hne, map_size_empty_iff, Hs.
    + rewrite map_size_empty. reflexivity.
Qed.

(** A decoded index survives the round trip unchanged: if [i1] was
    produced by [UnmarshalJSON], and the JSON library reads [data'] as the
    object [i1] is written as, then [UnmarshalJSON] of [data'], into any
    index, gives [i1] again. *)
Theorem decoded_Index_roundtrips (i0 i1 i2 : Index) (data data' : string) :
  Index_UnmarshalJSON i0 data = (None, i1) ->
  Unmarshal data' = inr (Index_flatten i1) ->
  Index_UnmarshalJSON i2 data' = (None, i1).
Proof.
  intros Hdec Hback. apply Index_UnmarshalJSON_proper in Hdec.
  assert (Hn : default ∅ (Options i1) !! "name" = None)
    by (destruct (Options i1) as [o|]; [apply Hdec|apply lookup_empty]).
  assert (Ht : default ∅ (Options i1) !! "type" = None)
    by (destruct (Options i1) as [o|]; [apply Hdec|apply lookup_empty]).
  unfold Index_UnmarshalJSON. rewrite Hback. cbv zeta.
  destruct (Index_flatten_lookup_fixed i1 Hn Ht) as [-> ->].
  rewrite (Index_flatten_delete_fixed i1 Hn Ht). cbn [default from_option].
  destruct i1 as [name type [o|]]; cbn [Name Type_ Options default from_option] in *;
    unfold id.
  - destruct Hdec as (Hne & _ & _).
    rewrite decide_False; [reflexivity|].
    intros Hs. apply Hne, map_size_empty_iff, Hs.
  - rewrite map_size_empty. reflexivity.
Qed.

End Codec.

(** *** The codec run with the JSON instance *)

Import Json (dq, JArray, JBool).

Definition by_id : Index :=
  {| Name := "by-id"; Type_ := "btree";
     Options := Some (<["unique" := JBool true]>
                        (<["fields" := JArray [JString "id"]]> ∅)) |}.

Definition by_id_json : string :=
  dq "{'fields':['id'],'name':'by-id','type':'btree','unique':true}".

(** C5 (as amended), on an index with two options. *)
Lemma Index_roundtrip_by_id :
  Index_MarshalJSON Json.Marshal_map by_id = inr by_id_json /\
  Index_UnmarshalJSON Json.Unmarshal_map
    {| Name := "old"; Type_ := "old"; Options := None |} by_id_json =
    (None, by_id).
Proof.
  split; [vm_compute; reflexivity|].
  apply (Index_roundtrip Json.Marshal_map Json.Unmarshal_map by_id).
  - vm_compute. reflexivity.
  - vm_compute. reflexivity.
  - vm_compute. reflexivity.
  - vm_compute. reflexivity.
Defined.

(** An index whose options bag holds the key "name". *)
Definition colliding : Index :=
  {| Name := "a"; Type_ := "btree";
     Options := Some {["name" := JString "b"]} |}.

(** C5 fails as stated: the option "name" overwrites the name on the way
    out, so the decoded index has the name "b" and no options. *)
Lemma Index_roundtrip_loses_colliding_option :
  Index_MarshalJSON Json.Marshal_map colliding =
    inr (dq "{'name':'b','type':'btree'}") /\
  Index_UnmarshalJSON Json.Unmarshal_map
    {| Name := ""; Type_ := ""; Options := None |}
    (dq "{'name':'b','type':'btree'}") =
    (None, {| Name := "b"; Type_ := "btree"; Options := None |}) /\
  Name colliding <> "b" /\
  Options colliding <> None.
Proof. repeat split; try (vm_compute; reflexivity); discriminate. Qed.

(** C6 fails as stated: an index with an empty name and an empty type is
    still written with both keys. *)
Lemma Index_writes_empty_fixed_fields :
  Index_MarshalJSON Json.Marshal_map
    {| Name := ""; Type_ := ""; Options := None |} =
    inr (dq "{'name':'','type':''}") /\
  Index_flatten {| Name := ""; Type_ := ""; Options := None |} !! "name" =
    Some (JString "").
Proof. split; vm_compute; reflexivity. Qed.

(** The request type does leave them out. *)
Example CreateIndexRequest_omits_empty_fixed_fields :
  CreateIndexRequest_MarshalJSON Json.Marshal_map
    {| ReqName := ""; ReqType := "btree";
       ReqOptions := Some {["unique" := JBool true]} |} =
    inr (dq "{'type':'btree','unique':true}").
Proof. vm_compute. reflexivity. Qed.

(** A request with a name, no type and one option, read into an index
    that had a type. *)
Lemma CreateIndexRequest_read_as_Index_by_id :
  CreateIndexRequest_MarshalJSON Json.Marshal_map
    {| ReqName := "by-id"; ReqType := "";
       ReqOptions := Some {["unique" := JBool true]} |} =
    inr (dq "{'name':'by-id','unique':true}") /\
  Index_UnmarshalJSON Json.Unmarshal_map
    {| Name := "old"; Type_ := "btree"; Options := None |}
    (dq "{'name':'by-id','unique':true}") =
    (None, {| Name := "by-id"; Type_ := "btree";
              Options := Some {["unique" := JBool true]} |}).
Proof.
  split; [vm_compute; reflexivity|].
  etrans.
  - apply (CreateIndexRequest_read_as_Index Json.Unmarshal_map
             {| ReqName := "by-id"; ReqType := "";
                ReqOptions := Some {["unique" := JBool true]} |}
             {| Name := "old"; Type_ := "btree"; Options := None |}).
    + vm_compute. reflexivity.
    + vm_compute. reflexivity.
    + vm_compute. reflexivity.
  - vm_compute. reflexivity.
Defined.

Lemma decoded_by_id_roundtrips :
  Index_UnmarshalJSON Json.Unmarshal_map
    {| Name := "other"; Type_ := "other"; Options := Some {["x" := JBool true]} |}
    by_id_json = (None, by_id).
Proof.
  apply (decoded_Index_roundtrips Json.Unmarshal_map
           {| Name := ""; Type_ := ""; Options := None |} by_id
           {| Name := "other"; Type_ := "other"; Options := Some {["x" := JBool true]} |}
           by_id_json by_id_json).
  - vm_compute. reflexivity.
  - vm_compute. reflexivity.
Defined.

(** A name that is not a string is dropped: it is neither the name nor an
    option of the decoded index. *)
Example Index_UnmarshalJSON_drops_number_name :
  Index_UnmarshalJSON Json.Unmarshal_map
    {| Name := ""; Type_ := ""; Options := None |}
    (dq "{'name':5,'type':'btree'}") =
    (None, {| Name := ""; Type_ := "btree"; Options := None |}).
Proof. vm_compute. reflexivity. Qed.

End Types.

(** ** The payload encoders *)

Module Encode.

Import Json (value).

(** A value of Go's type [any], by the runtime shape the encoders look at,
    in the order they look: the nil interface; a value whose dynamic type
    has a [Read] method (an [io.Reader]), of which the code only asks
    whether it is a nil pointer; the exact types [[]byte], [string] and
    [json.RawMessage]; and, for types without a [Read] method, a value of
    map kind (nil or not), a pointer (nil or not) and any other value. An
    interface stored in an [any] is stored as the value it holds, so a nil
    interface of any type arrives as [nil_interface]. *)
Inductive any : Type :=
| nil_interface
| reader_value (id : nat) (nil_pointer : bool)
| byte_slice (v : string)
| go_string (v : string)
| RawMessage (v : string)
| map_value (m : option (gmap string value))
| pointer_value (target : option value)
| other_value (v : value).

(** The [io.Reader] an encoder returns. *)
Inductive Reader : Type :=
| bytes_NewReader (data : string)
| strings_NewReader (s : string)
| caller_reader (id : nat) (nil_pointer : bool).

(** What the returned reader delivers; the caller's own reader is not the
    encoder's to read. *)
Definition contents (r : Reader) : option string :=
  match r with
  | bytes_NewReader data => Some data
  | strings_NewReader s => Some s
  | caller_reader _ _ => None
  end.

Section Encoders.

(** [json.Marshal], called on the values no earlier case took. *)
Variable Marshal : any -> error + string.

Definition marshalled (payload : any) : option Reader * option error :=
  match Marshal payload with
  | inl err => (None, Some err)
  | inr data => (Some (bytes_NewReader data), None)
  end.

Definition empty_object : option Reader * option error :=
  (Some (bytes_NewReader "{}"), None).

(** [func encodeJSONPayload(payload any) (io.Reader, error)] *)
Definition encodeJSONPayload (payload : any) : option Reader * option error :=
  match payload with
  | nil_interface => (None, None)
  | reader_value id np => (Some (caller_reader id np), None)
  | byte_slice v => (Some (bytes_NewReader v), None)
  | go_string v => (Some (strings_NewReader v), None)
  | RawMessage v => (Some (bytes_NewReader v), None)
  | map_value _ | pointer_value _ | other_value _ => marshalled payload
  end.

(** The [[]byte] case of [encodeJSONObject], which its [json.RawMessage]
    case re-enters. *)
Definition encodeJSONObject_bytes (v : string) : option Reader * option error :=
  if decide (String.length (TrimSpace v) = 0%nat) then empty_object
  else (Some (bytes_NewReader v), None).

(** [func encodeJSONObject(payload any) (io.Reader, error)] *)
Definition encodeJSONObject (payload : any) : option Reader * option error :=
  match payload with
  | nil_interface => empty_object
  | reader_value id np => (Some (caller_reader id np), None)
  | byte_slice v => encodeJSONObject_bytes v
  | go_string v =>
      if decide (TrimSpace v = "") then empty_object
      else (Some (strings_NewReader v), None)
  | RawMessage v => encodeJSONObject_bytes v
  | map_value None => empty_object
  | pointer_value None => empty_object
  | map_value (Some _) | pointer_value (Some _) | other_value _ =>
      marshalled payload
  end.

(** [val.Kind()] is [reflect.Pointer] or [reflect.Interface], and
    [val.IsNil()]. *)
Definition is_nil_pointer (payload : any) : bool :=
  match payload with
  | pointer_value None => true
  | reader_value _ true => true
  | _ => false
  end.

(** [func encodeQueryRequest(payload any) (io.Reader, error)] *)
Definition encodeQueryRequest (payload : any) : option Reader * option error :=
  match payload with
  | nil_interface => empty_object
  | _ => if is_nil_pointer payload then empty_object
         else encodeJSONObject payload
  end.

(** The payloads the specification calls absent. *)
Inductive absent : any -> Prop :=
| absent_nil : absent nil_interface
| absent_nil_pointer : absent (pointer_value None)
| absent_nil_reader_pointer (id : nat) : absent (reader_value id true)
| absent_nil_map : absent (map_value None)
| absent_blank_string (v : string) : blank v = true -> absent (go_string v)
| absent_blank_bytes (v : string) : blank v = true -> absent (byte_slice v)
| absent_blank_raw (v : string) : blank v = true -> absent (RawMessage v).

Lemma encodeJSONObject_bytes_blank (v : string) :
  blank v = true -> encodeJSONObject_bytes v = empty_object.
Proof.
  intros H. unfold encodeJSONObject_bytes.
  rewrite (TrimSpace_blank v H). reflexivity.
Qed.

(** C7. Every absent payload of the query flavor, that is the nil
    interface, a nil pointer, a nil map, or a string or byte sequence made
    of white space only, is encoded as a reader over the two bytes of the
    empty object, with no error. *)
Theorem encodeQueryRequest_absent (payload : any) :
  absent payload ->
  encodeQueryRequest payload = (Some (bytes_NewReader "{}"), None) /\
  String.length "{}" = 2%nat.
Proof.
  intros H. split; [|reflexivity].
  destruct H as [| | | |v Hv|v Hv|v Hv]; try reflexivity; simpl.
  - rewrite (TrimSpace_blank v Hv). reflexivity.
  - apply encodeJSONObject_bytes_blank, Hv.
  - apply encodeJSONObject_bytes_blank, Hv.
Qed.

(** C4 (as amended). The nil interface is absent for every encoder:
    [encodeJSONPayload] returns no reader and the two object encoders
    return the empty object. A nil pointer is absent for
    [encodeQueryRequest] whatever its type, and for [encodeJSONObject] when
    its type is not an [io.Reader] (one that is, is handed back as it is).
    [encodeJSONPayload] does not look for nil pointers: it hands a reader
    back and gives the others to [json.Marshal]. *)
Theorem nil_reference_encoding :
  encodeJSONPayload nil_interface = (None, None) /\
  encodeJSONObject nil_interface = empty_object /\
  encodeQueryRequest nil_interface = empty_object /\
  encodeQueryRequest (pointer_value None) = empty_object /\
  (forall id, encodeQueryRequest (reader_value id true) = empty_object) /\
  encodeJSONObject (pointer_value None) = empty_object /\
  (forall id,
     encodeJSONObject (reader_value id true) = (Some (caller_reader id true), None)) /\
  encodeJSONPayload (pointer_value None) = marshalled (pointer_value None) /\
  (forall id,
     encodeJSONPayload (reader_value id true) = (Some (caller_reader id true), None)).
Proof. repeat split. Qed.

(** *** Further behaviour of the encoders *)

(** [encodeQueryRequest] and [encodeJSONObject] return the same thing for
    every payload but one kind: a nil pointer whose type is an
    [io.Reader], which the first replaces by the empty object and the
    second hands back. *)
Theorem encodeQueryRequest_differs_on_nil_reader_only (payload : any) :
  encodeQueryRequest payload <> encodeJSONObject payload <->
  exists id, payload = reader_value id true.
Proof.
  split.
  - intros Hne.
    destruct payload as [|id [|]|v|v|v|[m|]|[t|]|v];
      try (exfalso; apply Hne; reflexivity).
    exists id. reflexivity.
  - intros [id ->]. discriminate.
Qed.

(** An encoder returns a reader or an error, never both. The two object
    encoders never return neither, and [encodeJSONPayload] returns neither
    for the nil interface only. An error is always the error
    [json.Marshal] gave for the payload, unchanged. *)
Theorem encoders_return_reader_or_error (payload : any) :
  match encodeJSONObject payload with
  | (Some _, None) => True
  | (None, Some err) => Marshal payload = inl err
  | _ => False
  end /\
  match encodeQueryRequest payload with
  | (Some _, None) => True
  | (None, Some err) => Marshal payload = inl err
  | _ => False
  end /\
  match encodeJSONPayload payload with
  | (Some _, None) => True
  | (None, Some err) => Marshal payload = inl err
  | (None, None) => payload = nil_interface
  | (Some _, Some _) => False
  end.
Proof.
  assert (Hm : match marshalled payload with
               | (Some _, None) => True
               | (None, Some err) => Marshal payload = inl err
               | _ => False
               end)
    by (unfold marshalled; destruct (Marshal payload); auto).
  destruct payload as [|id [|]|v|v|v|[m|]|[t|]|v];
    cbn [encodeJSONObject encodeQueryRequest encodeJSONPayload is_nil_pointer
         empty_object];
    repeat split;
    first [ exact Hm
          | unfold marshalled; destruct (Marshal _); reflexivity
          | unfold encodeJSONObject_bytes; destruct (decide _); exact I ].
Qed.

(** The two flavors differ on absent payloads only: for every payload the
    object encoder returns what [encodeJSONPayload] returns, or the empty
    object. *)
Theorem encodeJSONObject_as_payload_or_empty (payload : any) :
  encodeJSONObject payload = encodeJSONPayload payload \/
  encodeJSONObject payload = empty_object.
Proof.
  destruct payload as [|id np|v|v|v|[m|]|[t|]|v]; cbn; auto.
  - unfold encodeJSONObject_bytes. destruct (decide _); auto.
  - destruct (decide _); auto.
  - unfold encodeJSONObject_bytes. destruct (decide _); auto.
Qed.

End Encoders.

Section Lines.

(** What [enc.Encode(item)] writes for an item, or its error: the JSON
    text of the item, HTML escaping off, and a line feed. *)
Variable Encode : any -> error + string.

(** The loop of [encodeJSONLines] over the items, [buf] being what the
    buffer holds so far. *)
Fixpoint encodeJSONLines_loop (items : list any) (buf : string)
  : error + string :=
  match items with
  | [] => inr buf
  | item :: rest =>
      match Encode item with
      | inl err => inl err
      | inr line => encodeJSONLines_loop rest (buf +:+ line)
      end
  end.

(** [func encodeJSONLines(items []any) (io.Reader, error)]; the reader is
    the [*bytes.Buffer], given here by what it holds. *)
Definition encodeJSONLines (items : list any) : option string * option error :=
  match encodeJSONLines_loop items "" with
  | inl err => (None, Some err)
  | inr buf => (Some buf, None)
  end.

(** The lines one after the other. *)
Definition join (lines : list string) : string :=
  foldr String.append "" lines.

Lemma append_assoc (a b c : string) : (a +:+ b) +:+ c = a +:+ (b +:+ c).
Proof.
  induction a as [|x a IH]; [reflexivity|]. exact (f_equal (String x) IH).
Qed.

Lemma append_empty_r (a : string) : a +:+ "" = a.
Proof.
  induction a as [|x a IH]; [reflexivity|]. exact (f_equal (String x) IH).
Qed.

Lemma encodeJSONLines_loop_lines (items : list any) (lines : list string)
    (buf : string) :
  Forall2 (fun item line => Encode item = inr line) items lines ->
  encodeJSONLines_loop items buf = inr (buf +:+ join lines) /\
  forall bad err rest,
    Encode bad = inl err ->
    encodeJSONLines_loop (items ++ bad :: rest) buf = inl err.
Proof.
  intros H. revert buf.
  induction H as [|item line items lines Hline _ IH]; intros buf.
  - split.
    + cbn [encodeJSONLines_loop join foldr]. rewrite append_empty_r.
      reflexivity.
    + intros bad err rest Hbad. cbn [app encodeJSONLines_loop].
      rewrite Hbad. reflexivity.
  - destruct (IH (buf +:+ line)) as [Hall Hfail]. split.
    + cbn [encodeJSONLines_loop]. rewrite Hline, Hall, append_assoc.
      reflexivity.
    + intros bad err rest Hbad. cbn [app encodeJSONLines_loop].
      rewrite Hline. apply Hfail, Hbad.
Qed.

(** The items are written in order, one line each, and all or nothing:
    when every item of [items] encodes, the buffer holds their lines one
    after the other (nothing for no item); and when the item after them
    fails to encode, the error of that item is returned with no reader,
    whatever follows it. *)
Theorem encodeJSONLines_in_order_or_first_error
    (items : list any) (lines : list string) :
  Forall2 (fun item line => Encode item = inr line) items lines ->
  encodeJSONLines items = (Some (join lines), None) /\
  forall bad err rest,
    Encode bad = inl err ->
    encodeJSONLines (items ++ bad :: rest) = (None, Some err).
Proof.
  intros H. destruct (encodeJSONLines_loop_lines items lines "" H) as [Hall Hfail].
  unfold encodeJSONLines. split.
  - rewrite Hall. reflexivity.
  - intros bad err rest Hbad. rewrite (Hfail bad err rest Hbad). reflexivity.
Qed.

End Lines.

(** *** The encoders run with the JSON instance *)

(** [json.Marshal] on the values that reach it here: a nil map and a nil
    pointer are written as null. The other shapes never reach it. *)
Definition Marshal_any (payload : any) : error + string :=
  match payload with
  | map_value (Some m) => Json.Marshal_map m
  | map_value None => inr "null"
  | pointer_value None => inr "null"
  | pointer_value (Some v) => inr (Json.print v)
  | other_value v => inr (Json.print v)
  | _ => inl (errorString "json: value outside the model")
  end.

(** C7, on the typed nil pointer of TestEncodeQueryRequestNil. *)
Lemma encodeQueryRequest_nil_FindRequest :
  encodeQueryRequest Marshal_any (pointer_value None) =
    (Some (bytes_NewReader "{}"), None) /\
  String.length "{}" = 2%nat.
Proof.
  apply (encodeQueryRequest_absent Marshal_any (pointer_value None)).
  apply absent_nil_pointer.
Defined.

Example encodeQueryRequest_blank_string :
  encodeQueryRequest Marshal_any (go_string (" " +:+ Json.nl)) =
    (Some (bytes_NewReader "{}"), None).
Proof. vm_compute. reflexivity. Qed.

(** A string and a byte sequence holding only U+00A0 (bytes C2 A0) and a
    line feed are blank too. *)
Example encodeQueryRequest_blank_unicode :
  encodeQueryRequest Marshal_any
    (go_string (String "194" (String "160" Json.nl))) =
    (Some (bytes_NewReader "{}"), None) /\
  encodeQueryRequest Marshal_any
    (byte_slice (String "194" (String "160" Json.nl))) =
    (Some (bytes_NewReader "{}"), None).
Proof. split; vm_compute; reflexivity. Qed.

Example encodeQueryRequest_FindRequest :
  encodeQueryRequest Marshal_any
    (pointer_value (Some (Json.JObject
       [("index", Json.JString "my-index"); ("limit", Json.JNumber 5)]))) =
    (Some (bytes_NewReader (Json.dq "{'index':'my-index','limit':5}")), None).
Proof. vm_compute. reflexivity. Qed.

(** C4 fails as stated: [encodeJSONPayload] gives a typed nil pointer to
    [json.Marshal] and returns a body, the text null; and
    [encodeJSONObject] hands back a nil pointer that is an [io.Reader]
    instead of the empty object. *)
Lemma encodeJSONPayload_keeps_typed_nil :
  encodeJSONPayload Marshal_any (pointer_value None) =
    (Some (bytes_NewReader "null"), None) /\
  encodeJSONPayload Marshal_any (pointer_value None) <> (None, None) /\
  encodeJSONObject Marshal_any (reader_value 0 true) <>
    (Some (bytes_NewReader "{}"), None).
Proof. repeat split; discriminate. Qed.

(** The encoder of lines, on the values of the instance. *)
Definition Encode_line (payload : any) : error + string :=
  match payload with
  | map_value (Some m) =>
      inr (Json.print_plain (Json.JObject (Json.sorted_members m)) +:+ Json.nl)
  | map_value None => inr ("null" +:+ Json.nl)
  | pointer_value None => inr ("null" +:+ Json.nl)
  | nil_interface => inr ("null" +:+ Json.nl)
  | pointer_value (Some v) => inr (Json.print_plain v +:+ Json.nl)
  | other_value v => inr (Json.print_plain v +:+ Json.nl)
  | go_string v => inr (Json.quote_plain v +:+ Json.nl)
  | _ => inl (errorString "json: value outside the model")
  end.

Lemma encodeJSONLines_two_documents :
  encodeJSONLines Encode_line
    [other_value (Json.JObject [("id", Json.JNumber 1)]);
     map_value (Some {["name" := Json.JString "a<b"]})] =
    (Some (Json.dq "{'id':1}" +:+ Json.nl +:+
           Json.dq "{'name':'a<b'}" +:+ Json.nl), None) /\
  encodeJSONLines Encode_line
    ([other_value (Json.JObject [("id", Json.JNumber 1)]);
      map_value (Some {["name" := Json.JString "a<b"]})]
     ++ reader_value 0 false :: [nil_interface]) =
    (None, Some (errorString "json: value outside the model")).
Proof.
  destruct (encodeJSONLines_in_order_or_first_error Encode_line
              [other_value (Json.JObject [("id", Json.JNumber 1)]);
               map_value (Some {["name" := Json.JString "a<b"]})]
              [Json.dq "{'id':1}" +:+ Json.nl;
               Json.dq "{'name':'a<b'}" +:+ Json.nl]) as [Hall Hfail].
  - repeat constructor.
  - split.
    + etrans; [exact Hall|vm_compute; reflexivity].
    + apply Hfail. reflexivity.
Defined.

End Encode.

(** ** Errors of the server *)

Module Errors.

(** [const maxErrorBody = 1 << 20] *)
Definition maxErrorBody : Z := Z.shiftl 1 20.

(** [Error]. *)
Record Error := {
  StatusCode : Z;
  Message : string;
  Description : string;
  Body : string
}.

(** The [http.Response] of a failed request: its status, the bytes its body
    holds, and the error, if any, with which reading the body ends once
    those bytes are out (nil means a clean end). *)
Record Response := {
  resp_StatusCode : Z;
  resp_Body : string;
  resp_read_error : option error
}.

(** [io.ReadAll(io.LimitReader(body, n))]: the limited reader hands out at
    most [n] bytes and then reports a clean end without asking the body
    again, so the error of the body shows only when the body ends first. *)
Fixpoint ReadAll_LimitReader (n : Z) (body : string) (fail : option error)
  : string * option error :=
  match body with
  | EmptyString => (EmptyString, if n <=? 0 then None else fail)
  | String c r =>
      if n <=? 0 then (EmptyString, None)
      else
        let '(data, err) := ReadAll_LimitReader (n - 1) r fail in
        (String c data, err)
  end.

Section Parse.

(** [json.Unmarshal(data, &payload)] for the anonymous struct of
    [parseErrorResponse]: the error, and the fields [Error.Message] and
    [Error.Description] of the struct afterwards. *)
Variable Unmarshal : string -> option error * (string * string).

(** [func parseErrorResponse(resp *http.Response) error]; the result is
    always an [*Error]. *)
Definition parseErrorResponse (resp : Response) : Error :=
  let '(data, err) :=
    ReadAll_LimitReader maxErrorBody (resp_Body resp) (resp_read_error resp) in
  match err with
  | Some e =>
      {| StatusCode := resp_StatusCode resp; Message := Error_text e;
         Description := ""; Body := data |}
  | None =>
      let raw :=
        {| StatusCode := resp_StatusCode resp; Message := TrimSpace data;
           Description := ""; Body := data |} in
      if decide (0 < String.length data)%nat then
        match Unmarshal data with
        | (None, (message, description)) =>
            if decide (message <> "" \/ description <> "") then
              {| StatusCode := resp_StatusCode resp; Message := message;
                 Description := description; Body := data |}
            else raw
        | (Some _, _) => raw
        end
      else raw
  end.

Lemma ReadAll_LimitReader_length (body : string) (fail : option error) (n : Z) :
  0 <= n ->
  Z.of_nat (String.length (fst (ReadAll_LimitReader n body fail))) <= n.
Proof.
  revert n. induction body as [|c r IH]; intros n Hn; simpl; [lia|].
  destruct (Z.leb_spec n 0); simpl; [lia|].
  specialize (IH (n - 1) ltac:(lia)).
  destruct (ReadAll_LimitReader (n - 1) r fail) as [data err]. simpl in *. lia.
Qed.

Lemma ReadAll_LimitReader_prefix (body : string) (fail : option error) (n : Z) :
  exists rest, body = fst (ReadAll_LimitReader n body fail) +:+ rest.
Proof.
  revert n. induction body as [|c r IH]; intros n; simpl; [exists ""; reflexivity|].
  destruct (n <=? 0); simpl; [eexists; reflexivity|].
  destruct (IH (n - 1)) as [rest Hrest].
  destruct (ReadAll_LimitReader (n - 1) r fail) as [data err]. simpl in *.
  exists rest. rewrite Hrest at 1. reflexivity.
Qed.

Lemma parseErrorResponse_Body (resp : Response) :
  Body (parseErrorResponse resp) =
  fst (ReadAll_LimitReader maxErrorBody (resp_Body resp) (resp_read_error resp)).
Proof.
  unfold parseErrorResponse.
  destruct (ReadAll_LimitReader _ _ _) as [data [e|]]; [reflexivity|].
  cbv zeta. destruct (decide _); [|reflexivity].
  destruct (Unmarshal data) as [[e|] [m d]]; [reflexivity|].
  destruct (decide _); reflexivity.
Qed.

(** C9 (as amended). Let the body be read as [data], at most its first
    2^20 bytes. If reading failed, the message is the text of that error.
    Otherwise, if [data] is not empty and decodes without error into a
    message and a description that are not both empty, these two are the
    message and the description of the error; and if [data] is empty, does
    not decode, or decodes to an empty message and description, the
    message is [data] with the white space at both ends trimmed and the
    description is empty. *)
Theorem parseErrorResponse_message (resp : Response) (data : string)
    (rerr : option error) :
  ReadAll_LimitReader maxErrorBody (resp_Body resp) (resp_read_error resp) =
    (data, rerr) ->
  (forall e, rerr = Some e ->
     parseErrorResponse resp =
       {| StatusCode := resp_StatusCode resp; Message := Error_text e;
          Description := ""; Body := data |}) /\
  (forall m d,
     rerr = None -> data <> "" -> Unmarshal data = (None, (m, d)) ->
     m <> "" \/ d <> "" ->
     parseErrorResponse resp =
       {| StatusCode := resp_StatusCode resp; Message := m;
          Description := d; Body := data |}) /\
  (rerr = None ->
   data = "" \/ (exists e p, Unmarshal data = (Some e, p))
   \/ Unmarshal data = (None, ("", "")) ->
   parseErrorResponse resp =
     {| StatusCode := resp_StatusCode resp; Message := TrimSpace data;
        Description := ""; Body := data |}).
Proof.
  intros Hread. unfold parseErrorResponse. rewrite Hread.
  split; [|split].
  - intros e ->. reflexivity.
  - intros m d -> Hdata Hun Hmd. cbv zeta.
    rewrite decide_True by (destruct data; [congruence|simpl; lia]).
    rewrite Hun, decide_True by exact Hmd. reflexivity.
  - intros -> Hcases. cbv zeta.
    destruct (decide (0 < String.length data)%nat) as [Hlen|Hlen]; [|reflexivity].
    destruct Hcases as [->|[(e & p & Hun)|Hun]].
    + simpl in Hlen. lia.
    + rewrite Hun. reflexivity.
    + rewrite Hun, decide_False by (intros [?|?]; congruence). reflexivity.
Qed.

(** C10. Whatever the server sends, the body kept in the error is a prefix
    of what was sent and is at most 2^20 bytes long; so is the message
    whenever it is taken from the raw body. *)
Theorem parseErrorResponse_reads_at_most_1MiB (resp : Response) :
  maxErrorBody = 2 ^ 20 /\
  Z.of_nat (String.length (Body (parseErrorResponse resp))) <= 2 ^ 20 /\
  (exists rest, resp_Body resp = Body (parseErrorResponse resp) +:+ rest) /\
  (Message (parseErrorResponse resp) = TrimSpace (Body (parseErrorResponse resp)) ->
   Z.of_nat (String.length (Message (parseErrorResponse resp))) <= 2 ^ 20).
Proof.
  assert (Hlen : Z.of_nat (String.length (Body (parseErrorResponse resp))) <= 2 ^ 20).
  { rewrite parseErrorResponse_Body.
    apply (ReadAll_LimitReader_length _ _ maxErrorBody). discriminate. }
  split; [reflexivity|]. split; [exact Hlen|]. split.
  - rewrite parseErrorResponse_Body. apply ReadAll_LimitReader_prefix.
  - intros ->.
    pose proof (length_TrimSpace (Body (parseErrorResponse resp))). lia.
Qed.

(** *** The text of an error *)

(** [http.StatusText]: the empty string for a code it does not know. *)
Variable StatusText : Z -> string.

(** The local [status] of [Error.Error]: the text of the code, or the
    code itself after the word status. *)
Definition status_of (code : Z) : string :=
  if decide (StatusText code = "") then "status " +:+ pretty code
  else StatusText code.

(** [func (e *Error) Error() string] *)
Definition Error_method (e : Error) : string :=
  let status := status_of (StatusCode e) in
  if decide (Message e = "") then
    if decide (0 < String.length (TrimSpace (Body e)))%nat
    then "inceptiondb: " +:+ status +:+ ": " +:+ TrimSpace (Body e)
    else "inceptiondb: " +:+ status
  else if decide (Description e <> "") then
    "inceptiondb: " +:+ status +:+ ": " +:+ Message e +:+ " (" +:+
    Description e +:+ ")"
  else "inceptiondb: " +:+ status +:+ ": " +:+ Message e.

Lemma ReadAll_LimitReader_all (body : string) (fail : option error) (n : Z) :
  Z.of_nat (String.length body) <= n ->
  fst (ReadAll_LimitReader n body fail) = body.
Proof.
  revert n. induction body as [|c r IH]; intros n Hn; [reflexivity|].
  cbn [ReadAll_LimitReader]. cbn [String.length] in Hn.
  destruct (Z.leb_spec n 0); [lia|].
  specialize (IH (n - 1) ltac:(lia)).
  destruct (ReadAll_LimitReader (n - 1) r fail) as [data err].
  cbn [fst] in *. rewrite IH. reflexivity.
Qed.

Lemma parseErrorResponse_StatusCode (resp : Response) :
  StatusCode (parseErrorResponse resp) = resp_StatusCode resp.
Proof.
  unfold parseErrorResponse.
  destruct (ReadAll_LimitReader _ _ _) as [data [e|]]; [reflexivity|].
  cbv zeta. destruct (decide _); [|reflexivity].
  destruct (Unmarshal data) as [[e|] [m d]]; [reflexivity|].
  destruct (decide _); reflexivity.
Qed.

(** A body of at most 2^20 bytes is kept whole in the error, whether or
    not reading it ended with an error, and the status code of the
    response is always the status code of the error. *)
Theorem parseErrorResponse_keeps_small_body (resp : Response) :
  Z.of_nat (String.length (resp_Body resp)) <= 2 ^ 20 ->
  Body (parseErrorResponse resp) = resp_Body resp /\
  StatusCode (parseErrorResponse resp) = resp_StatusCode resp.
Proof.
  intros Hlen. split; [|apply parseErrorResponse_StatusCode].
  rewrite parseErrorResponse_Body. apply ReadAll_LimitReader_all. exact Hlen.
Qed.

Lemma TrimSpace_empty_length (s : string) :
  TrimSpace s = "" <-> ~ (0 < String.length (TrimSpace s))%nat.
Proof.
  destruct (TrimSpace s) as [|c r]; simpl.
  - split; [intros _; lia|reflexivity].
  - split; [discriminate|intros H; exfalso; apply H; lia].
Qed.

(** The text of an error made from a raw body: when the body was read as
    [data] without error and gave no message of its own ([data] is empty,
    does not decode, or decodes to an empty message and description), the
    text of the error is the prefix and the status, followed, unless
    [data] is all white space, by a colon and [data] trimmed. *)
Theorem Error_text_of_raw_body (resp : Response) (data : string) :
  ReadAll_LimitReader maxErrorBody (resp_Body resp) (resp_read_error resp) =
    (data, None) ->
  data = "" \/ (exists e p, Unmarshal data = (Some e, p))
  \/ Unmarshal data = (None, ("", "")) ->
  Error_method (parseErrorResponse resp) =
    if decide (TrimSpace data = "")
    then "inceptiondb: " +:+ status_of (resp_StatusCode resp)
    else "inceptiondb: " +:+ status_of (resp_StatusCode resp) +:+ ": " +:+
         TrimSpace data.
Proof.
  intros Hread Hcases.
  assert (Hraw : parseErrorResponse resp =
                 {| StatusCode := resp_StatusCode resp; Message := TrimSpace data;
                    Description := ""; Body := data |}).
  { unfold parseErrorResponse. rewrite Hread. cbv zeta.
    destruct (decide (0 < String.length data)%nat) as [Hlen|Hlen]; [|reflexivity].
    destruct Hcases as [->|[(e & p & Hun)|Hun]].
    - simpl in Hlen. lia.
    - rewrite Hun. reflexivity.
    - rewrite Hun, decide_False by (intros [?|?]; congruence). reflexivity. }
  rewrite Hraw. unfold Error_method. cbn [StatusCode Message Description Body].
  destruct (decide (TrimSpace data = "")) as [He|He].
  - rewrite decide_False by (apply TrimSpace_empty_length, He). reflexivity.
  - rewrite decide_False by (intros Hd; apply Hd; reflexivity). reflexivity.
Qed.

End Parse.

(** *** The parser run with the JSON instance *)

Import Json (JNull, JString, JObject, dq, nl).

Definition lower (c : ascii) : ascii :=
  let n := N_of_ascii c in
  if (65 <=? n)%N && (n <=? 90)%N then ascii_of_N (n + 32) else c.

Fixpoint lower_string (s : string) : string :=
  match s with
  | EmptyString => EmptyString
  | String c r => String (lower c) (lower_string r)
  end.

(** A key of the text names a field when they agree without regard to
    case. *)
Definition names (field key : string) : bool :=
  bool_decide (lower_string key = field).

(** One member of the inner object: a string is stored, null is skipped,
    anything else is a type error (the first one is kept). *)
Definition set_field (acc : option error * (string * string))
    (kv : string * Json.value) : option error * (string * string) :=
  let '(e, (m, d)) := acc in
  if names "message" kv.1 then
    match kv.2 with
    | JString v => (e, (v, d))
    | JNull => acc
    | _ => (Some (default Json.UnmarshalTypeError e), (m, d))
    end
  else if names "description" kv.1 then
    match kv.2 with
    | JString v => (e, (m, v))
    | JNull => acc
    | _ => (Some (default Json.UnmarshalTypeError e), (m, d))
    end
  else acc.

(** One member of the outer object. *)
Definition set_error (acc : option error * (string * string))
    (kv : string * Json.value) : option error * (string * string) :=
  if names "error" kv.1 then
    match kv.2 with
    | JObject ms => fold_left set_field ms acc
    | JNull => acc
    | _ => (Some (default Json.UnmarshalTypeError acc.1), acc.2)
    end
  else acc.

Definition Unmarshal_payload (data : string)
  : option error * (string * string) :=
  match Json.parse_all data with
  | None => (Some Json.SyntaxError, ("", ""))
  | Some JNull => (None, ("", ""))
  | Some (JObject ms) => fold_left set_error ms (None, ("", ""))
  | Some _ => (Some Json.UnmarshalTypeError, ("", ""))
  end.

Definition not_found : Response :=
  {| resp_StatusCode := 404;
     resp_Body :=
       dq "{'error':{'message':'not found','description':'no such collection'}}"
       +:+ nl;
     resp_read_error := None |}.

(** C9 (as amended), on an error body of the documented shape. *)
Lemma parseErrorResponse_not_found :
  parseErrorResponse Unmarshal_payload not_found =
    {| StatusCode := 404; Message := "not found";
       Description := "no such collection"; Body := resp_Body not_found |}.
Proof.
  apply (proj1 (proj2 (parseErrorResponse_message Unmarshal_payload not_found
                         (resp_Body not_found) None ltac:(vm_compute; reflexivity)))).
  - reflexivity.
  - discriminate.
  - vm_compute. reflexivity.
  - left. discriminate.
Defined.

(** A plain-text error body, as [http.Error] writes it: the text and a
    line feed. *)
Definition plain_text : Response :=
  {| resp_StatusCode := 500;
     resp_Body := "internal error" +:+ nl;
     resp_read_error := None |}.

(** C9 fails as stated: the message is the trimmed body, not the body. *)
Lemma parseErrorResponse_trims_raw_body :
  Unmarshal_payload (resp_Body plain_text) = (Some Json.SyntaxError, ("", "")) /\
  Message (parseErrorResponse Unmarshal_payload plain_text) = "internal error" /\
  Message (parseErrorResponse Unmarshal_payload plain_text) <> resp_Body plain_text.
Proof. repeat split; try (vm_compute; reflexivity). vm_compute. discriminate. Qed.

(** A JSON body without the documented structure: the raw text is used. *)
Example parseErrorResponse_other_json :
  Message (parseErrorResponse Unmarshal_payload
             {| resp_StatusCode := 400; resp_Body := dq "{'detail':'bad filter'}";
                resp_read_error := None |}) = dq "{'detail':'bad filter'}".
Proof. vm_compute. reflexivity. Qed.

(** [http.StatusText] on the codes used below. *)
Definition StatusText_some (code : Z) : string :=
  if decide (code = 404) then "Not Found"
  else if decide (code = 500) then "Internal Server Error"
  else "".

Lemma parseErrorResponse_keeps_plain_text :
  Body (parseErrorResponse Unmarshal_payload plain_text) = resp_Body plain_text /\
  StatusCode (parseErrorResponse Unmarshal_payload plain_text) = 500.
Proof.
  apply (parseErrorResponse_keeps_small_body Unmarshal_payload plain_text).
  vm_compute. discriminate.
Defined.

Lemma Error_text_of_plain_text :
  Error_method StatusText_some (parseErrorResponse Unmarshal_payload plain_text) =
    "inceptiondb: Internal Server Error: internal error".
Proof.
  etrans.
  - apply (Error_text_of_raw_body Unmarshal_payload StatusText_some plain_text
             (resp_Body plain_text)).
    + vm_compute. reflexivity.
    + right. left. eexists _, _. vm_compute. reflexivity.
  - vm_compute. reflexivity.
Defined.

(** An unknown code is shown as a number; an empty body adds nothing. *)
Example Error_text_of_empty_body :
  Error_method StatusText_some
    (parseErrorResponse Unmarshal_payload
       {| resp_StatusCode := 599; resp_Body := ""; resp_read_error := None |}) =
    "inceptiondb: status 599".
Proof. vm_compute. reflexivity. Qed.

(** A description without a message is not shown: the body is. *)
Example Error_text_of_description_only :
  Error_method StatusText_some
    (parseErrorResponse Unmarshal_payload
       {| resp_StatusCode := 404;
          resp_Body := dq "{'error':{'description':'no such collection'}}";
          resp_read_error := None |}) =
    "inceptiondb: Not Found: " +:+ dq "{'error':{'description':'no such collection'}}".
Proof. vm_compute. reflexivity. Qed.

End Errors.

(** ** The client and its requests *)

Module Client.

Import Json (value, JString).

(** What a request carries as its body: a reader made by one of the
    encoders, the buffer of [encodeJSONLines], [http.NoBody], or a reader
    the caller supplied. *)
Inductive body : Type :=
| encoded (r : Encode.Reader)
| buffer (contents : string)
| NoBody
| from_caller (id : nat).

Section HTTP.

(** [U] is [url.URL], [HC] is [http.Client], [Ctx] is [context.Context] and
    [W] the state of a response body, as in module [Stream]. *)
Context {U HC Ctx W : Type}.

(** Package net/url and [strconv.Quote] (the verb %q).
    [ResolveReference_nil] is [ResolveReference] called on a nil [*url.URL]:
    [None] when the call dereferences its receiver and panics. *)
Variable url_Parse : string -> error + U.
Variable Scheme : U -> string.
Variable Host : U -> string.
Variable ResolveReference : U -> U -> U.
Variable ResolveReference_nil : U -> option U.
Variable URL_String : U -> string.
Variable PathEscape : string -> string.
Variable Quote : string -> string.

(** Package net/http and [context.Background]. *)
Variable DefaultClient : HC.
Variable Background : Ctx.

(** [Client]; the two pointers may be nil. *)
Record Client := {
  baseURL : option U;
  httpClient : option HC;
  apiKey : string;
  apiSecret : string
}.

(** [Option] is a function on a [*Client]: the client behind the pointer, before and
    after. *)
Definition Option : Type := Client -> Client.

(** [func WithHTTPClient(h *http.Client) Option] *)
Definition WithHTTPClient (h : option HC) : Option :=
  fun c => {| baseURL := baseURL c; httpClient := h;
              apiKey := apiKey c; apiSecret := apiSecret c |}.

(** [func WithAPICredentials(apiKey, apiSecret string) Option] *)
Definition WithAPICredentials (key secret : string) : Option :=
  fun c => {| baseURL := baseURL c; httpClient := httpClient c;
              apiKey := key; apiSecret := secret |}.

(** The loop of [NewClient] over its options; a nil option is skipped. *)
Definition apply_options (opts : list (option Option)) (c : Client) : Client :=
  fold_left (fun c0 opt => match opt with Some f => f c0 | None => c0 end)
            opts c.

(** [func NewClient(baseURL string, opts ...Option)], returning a [*Client] and an error *)
Definition NewClient (base : string) (opts : list (option Option))
  : error + Client :=
  if decide (TrimSpace base = "") then inl (errorString "base URL is required")
  else
    match url_Parse base with
    | inl e => inl (wrapError "parse base url: " e)
    | inr parsed =>
        if decide (Scheme parsed = "") then
          inl (errorString "base URL must include the scheme (http or https)")
        else if decide (Host parsed = "") then
          inl (errorString "base URL must include the host")
        else
          let c := apply_options opts
                     {| baseURL := Some parsed;
                        httpClient := Some DefaultClient;
                        apiKey := ""; apiSecret := "" |} in
          inr (match httpClient c with
               | Some _ => c
               | None => {| baseURL := baseURL c;
                            httpClient := Some DefaultClient;
                            apiKey := apiKey c; apiSecret := apiSecret c |}
               end)
    end.

(** [http.Request], as far as [do] fills it. *)
Record Request := {
  ReqCtx : Ctx;
  Method : string;
  URL : string;
  ReqBody : option body;
  Header : gmap string string
}.

(** The error of [http.NewRequestWithContext], if any, and
    the method [Do] of [http.Client]. *)
Variable NewRequest_error : Ctx -> string -> string -> option body -> option error.
Variable Do : HC -> Request -> error + @Stream.Response W.

(** What a response body holds, and the error reading it ends with, for
    [parseErrorResponse]; and the JSON decoding of its payload. *)
Variable content : W -> string.
Variable read_failure : W -> option error.
Variable Unmarshal_payload : string -> option error * (string * string).

(** How a call ends when it does not return a result: with an ordinary
    error, with an [*Error] made from the response, or with the panic of a
    nil pointer dereference. *)
Inductive failure : Type :=
| err (e : error)
| api (e : Errors.Error)
| panic.

(** What a call does to the outside, in order: it hands a request to the
    HTTP client; it reads at most [maxErrorBody] bytes of a response body
    for [parseErrorResponse] ([io.ReadAll] of an [io.LimitReader]); it
    decodes one JSON value from a response body ([dec.Decode(dest)]); it
    reads a response body to its end and drops the bytes
    ([io.Copy(io.Discard, resp.Body)]); it closes a response body. *)
Inductive effect : Type :=
| Sent (req : Request)
| ErrorRead
| Decoded
| Drained
| BodyClosed.

(** The headers [do] sets on a new request. *)
Definition headers (c : Client) (contentType : string) : gmap string string :=
  let h := ∅ in
  let h := if decide (contentType <> "")
           then <["Content-Type" := contentType]> h else h in
  let h := if decide (apiKey c <> "") then <["Api-Key" := apiKey c]> h else h in
  if decide (apiSecret c <> "") then <["Api-Secret" := apiSecret c]> h else h.

(** [func (c *Client) do(ctx, method, path, body, contentType)], returning
    a [*http.Response] and an error *)
Definition do (c : Client) (ctx : option Ctx) (method path : string)
    (b : option body) (contentType : string)
  : (failure + @Stream.Response W) * list effect :=
  let ctx := default Background ctx in
  match url_Parse path with
  | inl e =>
      (inl (err (wrapError ("invalid path " +:+ Quote path +:+ ": ") e)), [])
  | inr rel =>
      match match baseURL c with
            | Some base => Some (ResolveReference base rel)
            | None => ResolveReference_nil rel
            end with
      | None => (inl panic, [])
      | Some endpoint =>
          match NewRequest_error ctx method (URL_String endpoint) b with
          | Some e => (inl (err e), [])
          | None =>
              let contentType :=
                match b with
                | Some _ => if decide (contentType = "")
                            then "application/json" else contentType
                | None => contentType
                end in
              let req := {| ReqCtx := ctx; Method := method;
                            URL := URL_String endpoint; ReqBody := b;
                            Header := headers c contentType |} in
              match httpClient c with
              | None => (inl panic, [])
              | Some hc =>
                  match Do hc req with
                  | inl e => (inl (err e), [Sent req])
                  | inr resp =>
                      if decide (400 <= Stream.StatusCode resp) then
                        (inl (api (Errors.parseErrorResponse Unmarshal_payload
                                     {| Errors.resp_StatusCode := Stream.StatusCode resp;
                                        Errors.resp_Body := content (Stream.Body resp);
                                        Errors.resp_read_error :=
                                          read_failure (Stream.Body resp) |})),
                         [Sent req; ErrorRead; BodyClosed])
                      else (inr resp, [Sent req])
                  end
              end
          end
      end
  end.

(** [func (c *Client) stream(ctx, method, path, body, contentType)],
    returning a [*JSONStream] and an error *)
Definition stream (c : Client) (ctx : option Ctx) (method path : string)
    (b : option body) (contentType : string)
  : (failure + @Stream.JSONStream W) * list effect :=
  match do c ctx method path b contentType with
  | (inl f, log) => (inl f, log)
  | (inr resp, log) => (inr (Stream.newJSONStream resp), log)
  end.

(** [func (c *Client) doJSON(ctx, method, path, body, dest) error]; [dest]
    is nil or points to a [T], which [Decode] fills. *)
Definition doJSON {T : Type} (Decode : W -> T -> option error * T * W)
    (c : Client) (ctx : option Ctx) (method path : string)
    (b : option body) (dest : option T)
  : option failure * option T * list effect :=
  match do c ctx method path b "" with
  | (inl f, log) => (Some f, dest, log)
  | (inr resp, log) =>
      match dest with
      | None => (None, None, log ++ [Drained; BodyClosed])
      | Some d =>
          if decide (Stream.StatusCode resp = 204) then
            (None, Some d, log ++ [Drained; BodyClosed])
          else
            let '(e, d', _) := Decode (Stream.Body resp) d in
            match e with
            | Some er =>
                if errors_Is er io_EOF
                then (None, Some d', log ++ [Decoded; BodyClosed])
                else (Some (err er), Some d', log ++ [Decoded; BodyClosed])
            | None => (None, Some d', log ++ [Decoded; Drained; BodyClosed])
            end
      end
  end.

(** [func collectionPath(collection string) string] *)
Definition collectionPath (collection : string) : string :=
  "/v1/collections/" +:+ PathEscape collection.

(** [func collectionActionPath(collection, action string) string] *)
Definition collectionActionPath (collection action : string) : string :=
  collectionPath collection +:+ ":" +:+ action.

(** [json.Marshal], for the encoders, and the encoder of lines. *)
Variable Marshal : Encode.any -> error + string.
Variable Encode_line : Encode.any -> error + string.

(** [func (c *Client) InsertStream(ctx, collection, reader)] *)
Definition InsertStream (c : Client) (ctx : option Ctx) (collection : string)
    (reader : option body) :=
  stream c ctx "POST" (collectionActionPath collection "insert")
         (Some (default NoBody reader)) "application/json".

(** [func (c *Client) InsertDocuments(ctx, collection, documents ...any)] *)
Definition InsertDocuments (c : Client) (ctx : option Ctx)
    (collection : string) (documents : list Encode.any) :=
  match documents with
  | [] => InsertStream c ctx collection None
  | _ :: _ =>
      match Encode.encodeJSONLines Encode_line documents with
      | (_, Some e) => (inl (err (wrapError "encode insert payload: " e)), [])
      | (r, None) => InsertStream c ctx collection (option_map buffer r)
      end
  end.

(** [func (c *Client) Find(ctx, collection, req *FindRequest)]; the
    request behind the pointer is given as [json.Marshal] sees it. *)
Definition Find (c : Client) (ctx : option Ctx) (collection : string)
    (req : option value) :=
  match Encode.encodeQueryRequest Marshal (Encode.pointer_value req) with
  | (_, Some e) => (inl (err (wrapError "encode find request: " e)), [])
  | (r, None) =>
      stream c ctx "POST" (collectionActionPath collection "find")
             (option_map encoded r) "application/json"
  end.

(** [func (c *Client) Patch(ctx, collection, req *PatchRequest)] *)
Definition Patch (c : Client) (ctx : option Ctx) (collection : string)
    (req : option value) :=
  match req with
  | None => (inl (err (errorString "patch request is nil")), [])
  | Some _ =>
      match Encode.encodeQueryRequest Marshal (Encode.pointer_value req) with
      | (_, Some e) => (inl (err (wrapError "encode patch request: " e)), [])
      | (r, None) =>
          stream c ctx "POST" (collectionActionPath collection "patch")
                 (option_map encoded r) "application/json"
      end
  end.

(** [func (c *Client) Remove(ctx, collection, req *RemoveRequest)] *)
Definition Remove (c : Client) (ctx : option Ctx) (collection : string)
    (req : option value) :=
  match Encode.encodeQueryRequest Marshal (Encode.pointer_value req) with
  | (_, Some e) => (inl (err (wrapError "encode remove request: " e)), [])
  | (r, None) =>
      stream c ctx "POST" (collectionActionPath collection "remove")
             (option_map encoded r) "application/json"
  end.

(** [func (c *Client) DropCollection(ctx, collection) error]: no body and
    no destination, so nothing is ever decoded. *)
Definition DropCollection (c : Client) (ctx : option Ctx) (collection : string)
  : option failure * list effect :=
  let '(f, _, log) :=
    doJSON (fun w (d : unit) => (None, d, w)) c ctx "POST"
           (collectionActionPath collection "dropCollection") None None in
  (f, log).

(** [func (c *Client) DropIndex(ctx, collection, name) error] *)
Definition DropIndex (c : Client) (ctx : option Ctx) (collection name : string)
  : option failure * list effect :=
  match Encode.encodeJSONObject Marshal
          (Encode.map_value (Some {[ "name" := JString name ]})) with
  | (_, Some e) => (Some (err (wrapError "encode drop index request: " e)), [])
  | (r, None) =>
      let '(f, _, log) :=
        doJSON (fun w (d : unit) => (None, d, w)) c ctx "POST"
               (collectionActionPath collection "dropIndex")
               (option_map encoded r) None in
      (f, log)
  end.

(** *** What the client sends and what it makes of the answer *)

(** The content type [do] settles on. *)
Definition content_type_of (contentType : string) (b : option body) : string :=
  match b with
  | Some _ => if decide (contentType = "") then "application/json" else contentType
  | None => contentType
  end.

(** The request [do] hands to the HTTP client, for the resolved URL. *)
Definition request_of (c : Client) (ctx : option Ctx) (method url : string)
    (b : option body) (contentType : string) : Request :=
  {| ReqCtx := default Background ctx; Method := method; URL := url;
     ReqBody := b; Header := headers c (content_type_of contentType b) |}.

(** How [do] ends on the request [req] once the HTTP client has it. *)
Definition answer_of (hc : HC) (req : Request)
  : (failure + @Stream.Response W) * list effect :=
  match Do hc req with
  | inl e => (inl (err e), [Sent req])
  | inr resp =>
      if decide (400 <= Stream.StatusCode resp) then
        (inl (api (Errors.parseErrorResponse Unmarshal_payload
                     {| Errors.resp_StatusCode := Stream.StatusCode resp;
                        Errors.resp_Body := content (Stream.Body resp);
                        Errors.resp_read_error := read_failure (Stream.Body resp) |})),
         [Sent req; ErrorRead; BodyClosed])
      else (inr resp, [Sent req])
  end.

Lemma do_outcome (c : Client) (ctx : option Ctx) (method path : string)
    (b : option body) (contentType : string) :
  (exists f, do c ctx method path b contentType = (inl f, [])) \/
  (exists hc url,
     httpClient c = Some hc /\
     do c ctx method path b contentType =
       answer_of hc (request_of c ctx method url b contentType)).
Proof.
  unfold do. cbv zeta.
  destruct (url_Parse path) as [e|rel]; [eauto|].
  destruct (match baseURL c with
            | Some base => Some (ResolveReference base rel)
            | None => ResolveReference_nil rel
            end) as [endpoint|]; [|eauto].
  destruct (NewRequest_error _ _ _ _) as [e|]; [eauto|].
  destruct (httpClient c) as [hc|]; [|eauto].
  right. exists hc, (URL_String endpoint). split; reflexivity.
Qed.

Lemma headers_lookup (c : Client) (contentType k : string) :
  headers c contentType !! k =
    if decide (k = "Api-Secret") then
      if decide (apiSecret c <> "") then Some (apiSecret c) else None
    else if decide (k = "Api-Key") then
      if decide (apiKey c <> "") then Some (apiKey c) else None
    else if decide (k = "Content-Type") then
      if decide (contentType <> "") then Some contentType else None
    else None.
Proof.
  unfold headers. cbv zeta.
  destruct (decide (k = "Api-Secret")) as [->|Hs].
  { destruct (decide (apiSecret c <> "")); [apply lookup_insert_eq|].
    destruct (decide (apiKey c <> "")), (decide (contentType <> ""));
      rewrite ?lookup_insert_ne, ?lookup_empty by discriminate; reflexivity. }
  destruct (decide (k = "Api-Key")) as [->|Hk].
  { destruct (decide (apiSecret c <> "")), (decide (apiKey c <> "")),
      (decide (contentType <> ""));
      rewrite ?(lookup_insert_ne _ "Api-Secret"), ?lookup_insert_eq,
        ?lookup_insert_ne, ?lookup_empty by discriminate; reflexivity. }
  destruct (decide (k = "Content-Type")) as [->|Hc].
  { destruct (decide (apiSecret c <> "")), (decide (apiKey c <> "")),
      (decide (contentType <> ""));
      rewrite ?(lookup_insert_ne _ "Api-Secret"), ?(lookup_insert_ne _ "Api-Key"),
        ?lookup_insert_eq, ?lookup_empty by discriminate; reflexivity. }
  destruct (decide (apiSecret c <> "")), (decide (apiKey c <> "")),
    (decide (contentType <> ""));
    rewrite ?lookup_insert_ne, ?lookup_empty by congruence; reflexivity.
Qed.

Lemma answer_of_log (hc : HC) (req : Request) :
  exists rest, snd (answer_of hc req) = Sent req :: rest /\
               (rest = [] \/ rest = [ErrorRead; BodyClosed]).
Proof.
  unfold answer_of. destruct (Do hc req) as [e|resp]; [simpl; eauto|].
  destruct (decide _); simpl; eauto.
Qed.

(** [NewClient] returns a client exactly when the base URL is not blank,
    parses, and has a scheme and a host; the client it returns has an HTTP
    client, whatever the options did. *)
Theorem NewClient_checks_base_URL (base : string) (opts : list (option Option)) :
  match NewClient base opts with
  | inr c =>
      TrimSpace base <> "" /\
      (exists u, url_Parse base = inr u /\ Scheme u <> "" /\ Host u <> "") /\
      httpClient c <> None
  | inl _ =>
      TrimSpace base = "" \/
      (exists e, url_Parse base = inl e) \/
      (exists u, url_Parse base = inr u /\ (Scheme u = "" \/ Host u = ""))
  end.
Proof.
  unfold NewClient.
  destruct (decide (TrimSpace base = "")) as [Hb|Hb]; [auto|].
  destruct (url_Parse base) as [e|u]; [eauto|].
  destruct (decide (Scheme u = "")) as [Hs|Hs]; [eauto 6|].
  destruct (decide (Host u = "")) as [Hh|Hh]; [eauto 6|].
  cbv zeta. split; [exact Hb|]. split; [eauto|].
  destruct (httpClient (apply_options opts _)) eqn:Hc; [rewrite Hc|]; discriminate.
Qed.

Lemma apply_options_last (opts : list (option Option)) (f : Option) (c : Client) :
  apply_options (opts ++ [Some f]) c = f (apply_options opts c).
Proof. unfold apply_options. rewrite fold_left_app. reflexivity. Qed.

(** The last option wins: when [NewClient] succeeds with
    [WithAPICredentials] as its last option, the client has that key and
    that secret; with [WithHTTPClient] as its last option it has that HTTP
    client, or the default one if the option was given nil. *)
Theorem NewClient_last_option_wins
    (base : string) (opts : list (option Option)) :
  (forall key secret c,
     NewClient base (opts ++ [Some (WithAPICredentials key secret)]) = inr c ->
     apiKey c = key /\ apiSecret c = secret) /\
  (forall h c,
     NewClient base (opts ++ [Some (WithHTTPClient h)]) = inr c ->
     httpClient c = Some (default DefaultClient h)).
Proof.
  split.
  - intros key secret c. unfold NewClient.
    destruct (decide _); [discriminate|].
    destruct (url_Parse base) as [e|u]; [discriminate|].
    destruct (decide _); [discriminate|]. destruct (decide _); [discriminate|].
    cbv zeta. rewrite apply_options_last. cbn [WithAPICredentials httpClient].
    destruct (httpClient (apply_options opts _)); intros [= <-]; auto.
  - intros h c. unfold NewClient.
    destruct (decide _); [discriminate|].
    destruct (url_Parse base) as [e|u]; [discriminate|].
    destruct (decide _); [discriminate|]. destruct (decide _); [discriminate|].
    cbv zeta. rewrite apply_options_last. cbn [WithHTTPClient httpClient].
    destruct h as [hc|]; intros [= <-]; reflexivity.
Qed.

(** [do] hands at most one request to the HTTP client, and that request
    has the method, the body and the context it was given (the background
    context for a nil one); its Content-Type is the one given, or
    application/json when none is given and there is a body, or absent; it
    carries Api-Key and Api-Secret exactly when the client has a key and a
    secret, and no other header. After the request, [do] does nothing
    else, or it reads the body of the response for [parseErrorResponse]
    and then closes it. *)
Theorem do_sends_one_request (c : Client) (ctx : option Ctx)
    (method path : string) (b : option body) (contentType : string) :
  snd (do c ctx method path b contentType) = [] \/
  exists req rest,
    snd (do c ctx method path b contentType) = Sent req :: rest /\
    (rest = [] \/ rest = [ErrorRead; BodyClosed]) /\
    Method req = method /\ ReqBody req = b /\
    ReqCtx req = default Background ctx /\
    Header req !! "Content-Type" =
      (if decide (contentType <> "") then Some contentType
       else match b with Some _ => Some "application/json" | None => None end) /\
    Header req !! "Api-Key" =
      (if decide (apiKey c <> "") then Some (apiKey c) else None) /\
    Header req !! "Api-Secret" =
      (if decide (apiSecret c <> "") then Some (apiSecret c) else None) /\
    (forall k, k <> "Content-Type" -> k <> "Api-Key" -> k <> "Api-Secret" ->
               Header req !! k = None).
Proof.
  destruct (do_outcome c ctx method path b contentType)
    as [[f ->]|(hc & url & Hhc & ->)]; [left; reflexivity|].
  right. set (req := request_of c ctx method url b contentType).
  destruct (answer_of_log hc req) as (rest & Hlog & Hrest).
  exists req, rest. split; [exact Hlog|]. split; [exact Hrest|].
  do 3 (split; [reflexivity|]).
  cbn [req request_of Header]. rewrite !headers_lookup.
  split; [|split; [|split]].
  - cbn [decide]. rewrite (decide_False (P := "Content-Type" = "Api-Secret")) by discriminate.
    rewrite (decide_False (P := "Content-Type" = "Api-Key")) by discriminate.
    rewrite (decide_True (P := "Content-Type" = "Content-Type")) by reflexivity.
    unfold content_type_of. destruct b as [b0|].
    + destruct (decide (contentType = "")) as [->|Hct].
      * rewrite decide_True by discriminate.
        rewrite decide_False by (intros H; apply H; reflexivity). reflexivity.
      * rewrite !decide_True by assumption. reflexivity.
    + reflexivity.
  - rewrite (decide_False (P := "Api-Key" = "Api-Secret")) by discriminate.
    rewrite (decide_True (P := "Api-Key" = "Api-Key")) by reflexivity. reflexivity.
  - rewrite (decide_True (P := "Api-Secret" = "Api-Secret")) by reflexivity.
    reflexivity.
  - intros k Hc Hk Hs. rewrite headers_lookup, !decide_False by assumption.
    reflexivity.
Qed.

(** What [do] makes of the answer: an error of the HTTP client is
    returned as it is; a response with a status of 400 or more becomes an
    [*Error] with that status, its body being read for the error and then
    closed; any other response is returned with its body untouched. *)
Theorem do_maps_answer (c : Client) (ctx : option Ctx) (method path : string)
    (b : option body) (contentType : string) (hc : HC) (req : Request)
    (result : failure + @Stream.Response W) (rest : list effect) :
  httpClient c = Some hc ->
  do c ctx method path b contentType = (result, Sent req :: rest) ->
  match Do hc req with
  | inl e => result = inl (err e) /\ rest = []
  | inr resp =>
      if decide (400 <= Stream.StatusCode resp) then
        (exists E, result = inl (api E) /\
                   Errors.StatusCode E = Stream.StatusCode resp) /\
        rest = [ErrorRead; BodyClosed]
      else result = inr resp /\ rest = []
  end.
Proof.
  intros Hhc Hdo.
  destruct (do_outcome c ctx method path b contentType)
    as [[f Hf]|(hc' & url & Hhc' & Hans)]; [congruence|].
  assert (hc' = hc) as -> by congruence.
  rewrite Hans in Hdo. clear Hans.
  destruct (answer_of_log hc (request_of c ctx method url b contentType))
    as (rest' & Hlog & _).
  rewrite Hdo in Hlog. cbn [snd] in Hlog.
  injection Hlog as Hreq _. subst req.
  revert Hdo. unfold answer_of.
  destruct (Do hc _) as [e|resp]; [intros [= <- <-]; auto|].
  destruct (decide (400 <= Stream.StatusCode resp)); intros [= <- <-]; [|auto].
  split; [|reflexivity]. eexists. split; [reflexivity|].
  apply Errors.parseErrorResponse_StatusCode.
Qed.

(** [doJSON] releases what it receives: either nothing was sent, or the
    HTTP client failed on the one request and there is no body to close,
    or a response came back and its body is closed exactly once, last:
    after being read for the error when the status is 400 or more, and
    otherwise after being drained (nil destination, or status 204),
    decoded (when decoding stopped on end-of-stream or an error), or
    decoded and then drained. *)
Theorem doJSON_closes_body {T : Type}
    (Decode : W -> T -> option error * T * W)
    (c : Client) (ctx : option Ctx) (method path : string)
    (b : option body) (dest : option T) :
  let log := snd (doJSON Decode c ctx method path b dest) in
  log = [] \/
  exists hc req,
    httpClient c = Some hc /\
    match Do hc req with
    | inl _ => log = [Sent req]
    | inr resp =>
        if decide (400 <= Stream.StatusCode resp) then
          log = [Sent req; ErrorRead; BodyClosed]
        else
          log = [Sent req; Drained; BodyClosed] \/
          log = [Sent req; Decoded; BodyClosed] \/
          log = [Sent req; Decoded; Drained; BodyClosed]
    end.
Proof.
  cbv zeta. unfold doJSON.
  destruct (do_outcome c ctx method path b "")
    as [[f ->]|(hc & url & Hhc & ->)]; [left; reflexivity|].
  right. exists hc, (request_of c ctx method url b ""). split; [exact Hhc|].
  unfold answer_of.
  destruct (Do hc _) as [e|resp]; [reflexivity|].
  destruct (decide (400 <= Stream.StatusCode resp)); [reflexivity|].
  destruct dest as [d|]; [|left; reflexivity].
  destruct (decide (Stream.StatusCode resp = 204)); [left; reflexivity|].
  destruct (Decode (Stream.Body resp) d) as [[[er|] d'] w'].
  - destruct (errors_Is er io_EOF); right; left; reflexivity.
  - right; right; reflexivity.
Qed.

(** A nil request: [Find] and [Remove] take it for the empty query and
    post the empty object, while [Patch] refuses it before anything is
    sent. *)
Theorem nil_request_handling (c : Client) (ctx : option Ctx) (collection : string) :
  Find c ctx collection None =
    stream c ctx "POST" (collectionActionPath collection "find")
           (Some (encoded (Encode.bytes_NewReader "{}"))) "application/json" /\
  Remove c ctx collection None =
    stream c ctx "POST" (collectionActionPath collection "remove")
           (Some (encoded (Encode.bytes_NewReader "{}"))) "application/json" /\
  Patch c ctx collection None =
    (inl (err (errorString "patch request is nil")), []).
Proof. repeat split. Qed.

(** The body of an insert: [InsertDocuments] without documents posts
    [http.NoBody], as [InsertStream] does for a nil reader; with documents
    that all encode it posts their lines in order; and when a document
    fails to encode it returns that error, wrapped, and sends nothing. *)
Theorem InsertDocuments_posts_lines (c : Client) (ctx : option Ctx)
    (collection : string) (documents : list Encode.any) (lines : list string) :
  Forall2 (fun item line => Encode_line item = inr line) documents lines ->
  InsertDocuments c ctx collection documents =
    stream c ctx "POST" (collectionActionPath collection "insert")
           (Some (match documents with
                  | [] => NoBody
                  | _ :: _ => buffer (Encode.join lines)
                  end)) "application/json" /\
  forall bad e rest,
    Encode_line bad = inl e ->
    InsertDocuments c ctx collection (documents ++ bad :: rest) =
      (inl (err (wrapError "encode insert payload: " e)), []).
Proof.
  intros H.
  destruct (Encode.encodeJSONLines_loop_lines Encode_line documents lines "" H)
    as [Hall Hfail].
  split.
  - destruct documents as [|d ds]; [reflexivity|].
    unfold InsertDocuments, Encode.encodeJSONLines. rewrite Hall. reflexivity.
  - intros bad e rest Hbad. unfold InsertDocuments, Encode.encodeJSONLines.
    rewrite (Hfail bad e rest Hbad).
    destruct documents; reflexivity.
Qed.

Lemma doJSON_nil_dest {T : Type} (Decode : W -> T -> option error * T * W)
    (c : Client) (ctx : option Ctx) (method path : string) (b : option body) :
  let r := doJSON Decode c ctx method path b None in
  fst (fst r) = None <->
  exists hc req resp,
    httpClient c = Some hc /\ Do hc req = inr resp /\
    Stream.StatusCode resp < 400 /\
    Method req = method /\ ReqBody req = b /\
    snd r = [Sent req; Drained; BodyClosed].
Proof.
  cbv zeta. unfold doJSON.
  destruct (do_outcome c ctx method path b "")
    as [[f ->]|(hc & url & Hhc & ->)].
  { cbn [fst snd]. split; [discriminate|].
    intros (? & ? & ? & _ & _ & _ & _ & _ & [=]). }
  set (req := request_of c ctx method url b ""). unfold answer_of.
  destruct (Do hc req) as [e|resp] eqn:HDo.
  { cbn [fst snd]. split; [discriminate|].
    intros (? & ? & ? & _ & _ & _ & _ & _ & [=]). }
  destruct (decide (400 <= Stream.StatusCode resp)) as [Hs|Hs]; cbn [fst snd app].
  { split; [discriminate|].
    intros (? & ? & ? & _ & _ & _ & _ & _ & [=]). }
  split; [|reflexivity]. intros _.
  exists hc, req, resp. repeat split; try assumption. lia.
Qed.

(** Dropping decodes nothing: [DropCollection] returns nil exactly when
    the server answered its one request, a POST without body, with a
    status below 400, the body of the answer being drained and closed; and
    so does [DropIndex], whose request carries the object naming the
    index. *)
Theorem drop_succeeds_below_400 (c : Client) (ctx : option Ctx)
    (collection name : string) :
  (fst (DropCollection c ctx collection) = None <->
   exists hc req resp,
     httpClient c = Some hc /\ Do hc req = inr resp /\
     Stream.StatusCode resp < 400 /\
     Method req = "POST" /\ ReqBody req = None /\
     snd (DropCollection c ctx collection) = [Sent req; Drained; BodyClosed]) /\
  (fst (DropIndex c ctx collection name) = None <->
   exists hc req resp data,
     Marshal (Encode.map_value (Some {[ "name" := JString name ]})) = inr data /\
     httpClient c = Some hc /\ Do hc req = inr resp /\
     Stream.StatusCode resp < 400 /\
     Method req = "POST" /\
     ReqBody req = Some (encoded (Encode.bytes_NewReader data)) /\
     snd (DropIndex c ctx collection name) = [Sent req; Drained; BodyClosed]).
Proof.
  split.
  - unfold DropCollection.
    pose proof (doJSON_nil_dest (fun w (d : unit) => (None, d, w)) c ctx "POST"
                  (collectionActionPath collection "dropCollection") None) as H.
    cbv zeta in H.
    destruct (doJSON _ c ctx "POST" _ None None) as [[f d] log].
    exact H.
  - unfold DropIndex. cbn [Encode.encodeJSONObject]. unfold Encode.marshalled.
    destruct (Marshal (Encode.map_value (Some {[ "name" := JString name ]})))
      as [e|data].
    { cbn [fst]. split; [discriminate|].
      intros (? & ? & ? & ? & [=] & _). }
    cbn [option_map].
    pose proof (doJSON_nil_dest (fun w (d : unit) => (None, d, w)) c ctx "POST"
                  (collectionActionPath collection "dropIndex")
                  (Some (encoded (Encode.bytes_NewReader data)))) as H.
    cbv zeta in H.
    destruct (doJSON _ c ctx "POST" _ (Some _) None) as [[f d] log].
    cbn [fst snd] in *. rewrite H. split.
    + intros (hc & req & resp & ?). exists hc, req, resp, data. tauto.
    + intros (hc & req & resp & data' & [= <-] & ?). exists hc, req, resp. tauto.
Qed.

End HTTP.

(** *** The client run against a small server *)

(** A URL of the shape scheme://host/path, for the instance. *)
Record simple_url := { u_scheme : string; u_host : string; u_path : string }.

(** The scheme read so far and the text after the first "://". *)
Fixpoint split_scheme (s acc : string) : option (string * string) :=
  match s with
  | EmptyString => None
  | String c r =>
      match c, r with
      | ":"%char, String "/"%char (String "/"%char rest) => Some (acc, rest)
      | _, _ => split_scheme r (acc +:+ String c EmptyString)
      end
  end.

(** The host, up to the first slash, and the path from that slash on. *)
Fixpoint split_host (s : string) : string * string :=
  match s with
  | EmptyString => (EmptyString, EmptyString)
  | String c r =>
      if Ascii.eqb c "/" then (EmptyString, s)
      else let '(h, p) := split_host r in (String c h, p)
  end.

Fixpoint has_control (s : string) : bool :=
  match s with
  | EmptyString => false
  | String c r =>
      (N_of_ascii c <? 32)%N || (N_of_ascii c =? 127)%N || has_control r
  end.

(** [url.Parse] on such texts: a control character is an error; without
    "://" the text is a path. *)
Definition url_Parse_simple (s : string) : error + simple_url :=
  if has_control s then
    inl (errorString "net/url: invalid control character in URL")
  else
    match split_scheme s "" with
    | Some (scheme, rest) =>
        let '(h, p) := split_host rest in
        inr {| u_scheme := scheme; u_host := h; u_path := p |}
    | None => inr {| u_scheme := ""; u_host := ""; u_path := s |}
    end.

(** [ResolveReference] for a reference that is absolute or a rooted path. *)
Definition ResolveReference_simple (base rel : simple_url) : simple_url :=
  if decide (u_scheme rel = "") then
    {| u_scheme := u_scheme base; u_host := u_host base; u_path := u_path rel |}
  else rel.

Definition ResolveReference_nil_simple (rel : simple_url) : option simple_url :=
  if decide (u_scheme rel = "") then None else Some rel.

Definition URL_String_simple (u : simple_url) : string :=
  u_scheme u +:+ "://" +:+ u_host u +:+ u_path u.

Definition hex_upper (n : N) : ascii :=
  ascii_of_N (if (n <? 10)%N then 48 + n else 55 + n).

(** [url.PathEscape]: letters, digits and the marks below are kept, every
    other byte is written as a percent sign and two hexadecimal digits. *)
Definition path_safe (c : ascii) : bool :=
  let n := N_of_ascii c in
  ((97 <=? n) && (n <=? 122))%N || ((65 <=? n) && (n <=? 90))%N
  || ((48 <=? n) && (n <=? 57))%N
  || match c with
     | "-" | "_" | "." | "~" | "$" | "&" | "+" | ":" | "=" | "@" => true
     | _ => false
     end%char.

Fixpoint PathEscape_simple (s : string) : string :=
  match s with
  | EmptyString => EmptyString
  | String c r =>
      if path_safe c then String c (PathEscape_simple r)
      else String "%" (String (hex_upper (N_of_ascii c / 16))
             (String (hex_upper (N_of_ascii c mod 16)) (PathEscape_simple r)))
  end.

(** A server that knows one key: it answers a request carrying it with
    two records, and any other request with an error body. *)
Definition server (hc : unit) (req : @Request unit)
  : error + @Stream.Response string :=
  if decide (Header req !! "Api-Key" = Some "test-key") then
    inr {| Stream.StatusCode := 200; Stream.Body := Stream.two_records |}
  else
    inr {| Stream.StatusCode := 401;
           Stream.Body := Json.dq "{'error':{'message':'unauthorized'}}" |}.

Definition no_request_error (ctx : unit) (method url : string)
    (b : option body) : option error := None.

Definition do_test :=
  @do simple_url unit unit string url_Parse_simple ResolveReference_simple
      ResolveReference_nil_simple URL_String_simple Json.quote tt
      no_request_error server (fun w => w) (fun _ => None)
      Errors.Unmarshal_payload.

Definition NewClient_test :=
  @NewClient simple_url unit url_Parse_simple u_scheme u_host tt.

Definition stream_test :=
  @stream simple_url unit unit string url_Parse_simple ResolveReference_simple
      ResolveReference_nil_simple URL_String_simple Json.quote tt
      no_request_error server (fun w => w) (fun _ => None)
      Errors.Unmarshal_payload.

Definition Find_test :=
  @Find simple_url unit unit string url_Parse_simple ResolveReference_simple
      ResolveReference_nil_simple URL_String_simple PathEscape_simple
      Json.quote tt no_request_error server (fun w => w) (fun _ => None)
      Errors.Unmarshal_payload Encode.Marshal_any.

Definition InsertDocuments_test :=
  @InsertDocuments simple_url unit unit string url_Parse_simple
      ResolveReference_simple ResolveReference_nil_simple URL_String_simple
      PathEscape_simple Json.quote tt no_request_error server (fun w => w)
      (fun _ => None) Errors.Unmarshal_payload Encode.Encode_line.

(** The client of TestClientWithAPICredentials and the one of
    TestClientWithoutAPICredentials. *)
Definition with_credentials : @Client simple_url unit :=
  {| baseURL := Some {| u_scheme := "http"; u_host := "127.0.0.1:8080";
                        u_path := "" |};
     httpClient := Some tt; apiKey := "test-key"; apiSecret := "test-secret" |}.

Definition without_credentials : @Client simple_url unit :=
  {| baseURL := Some {| u_scheme := "http"; u_host := "127.0.0.1:8080";
                        u_path := "" |};
     httpClient := Some tt; apiKey := ""; apiSecret := "" |}.

Example NewClient_with_credentials :
  NewClient_test "http://127.0.0.1:8080"
    [None; Some (WithAPICredentials "test-key" "test-secret");
     Some (WithHTTPClient None)] = inr with_credentials /\
  NewClient_test "http://127.0.0.1:8080" [] = inr without_credentials /\
  NewClient_test "127.0.0.1:8080" [] =
    inl (errorString "base URL must include the scheme (http or https)") /\
  NewClient_test "  " [] = inl (errorString "base URL is required").
Proof. repeat split; vm_compute; reflexivity. Qed.

(** The request [Find] sends for a nil request on the collection
    "my people". *)
Definition find_request : @Request unit :=
  {| ReqCtx := tt; Method := "POST";
     URL := "http://127.0.0.1:8080/v1/collections/my%20people:find";
     ReqBody := Some (encoded (Encode.bytes_NewReader "{}"));
     Header := <["Api-Secret" := "test-secret"]>
                 (<["Api-Key" := "test-key"]>
                    (<["Content-Type" := "application/json"]> ∅)) |}.

Example Find_with_credentials :
  Find_test with_credentials None "my people" None =
    (inr (Stream.newJSONStream
            {| Stream.StatusCode := 200; Stream.Body := Stream.two_records |}),
     [Sent find_request]).
Proof. vm_compute. reflexivity. Qed.

Definition unauthorized : Errors.Error :=
  {| Errors.StatusCode := 401; Errors.Message := "unauthorized";
     Errors.Description := "";
     Errors.Body := Json.dq "{'error':{'message':'unauthorized'}}" |}.

Definition plain_request : @Request unit :=
  {| ReqCtx := tt; Method := "GET";
     URL := "http://127.0.0.1:8080/v1/collections";
     ReqBody := None; Header := ∅ |}.

Lemma do_without_credentials :
  do_test without_credentials None "GET" "/v1/collections" None "" =
    (inl (api unauthorized), [Sent plain_request; ErrorRead; BodyClosed]) /\
  exists E : Errors.Error,
    @inl failure (@Stream.Response string) (api unauthorized) = inl (api E) /\
    Errors.StatusCode E = 401.
Proof.
  assert (H : do_test without_credentials None "GET" "/v1/collections" None "" =
              (inl (api unauthorized), [Sent plain_request; ErrorRead; BodyClosed]))
    by (vm_compute; reflexivity).
  split; [exact H|].
  pose proof (do_maps_answer url_Parse_simple ResolveReference_simple
                ResolveReference_nil_simple URL_String_simple Json.quote tt
                no_request_error server (fun w => w) (fun _ => None)
                Errors.Unmarshal_payload without_credentials None "GET"
                "/v1/collections" None "" tt plain_request
                (inl (api unauthorized)) [ErrorRead; BodyClosed] eq_refl H) as Hans.
  vm_compute in Hans. exact (proj1 Hans).
Defined.

Definition two_documents : list Encode.any :=
  [Encode.other_value (Json.JObject [("id", Json.JNumber 1)]);
   Encode.other_value (Json.JObject [("id", Json.JNumber 2)])].

Lemma InsertDocuments_two_documents :
  InsertDocuments_test with_credentials None "people" two_documents =
    stream_test with_credentials None "POST"
      (collectionActionPath PathEscape_simple "people" "insert")
      (Some (buffer Stream.two_records)) "application/json" /\
  InsertDocuments_test with_credentials None "people"
    (two_documents ++ Encode.reader_value 0 false :: []) =
    (inl (err (wrapError "encode insert payload: "
                 (errorString "json: value outside the model"))), []).
Proof.
  destruct (InsertDocuments_posts_lines url_Parse_simple ResolveReference_simple
              ResolveReference_nil_simple URL_String_simple PathEscape_simple
              Json.quote tt no_request_error server (fun w => w)
              (fun _ => None) Errors.Unmarshal_payload Encode.Encode_line
              with_credentials None "people" two_documents
              [Json.dq "{'id':1}" +:+ Json.nl; Json.dq "{'id':2}" +:+ Json.nl])
    as [Hall Hfail].
  - repeat constructor.
  - split.
    + etrans; [exact Hall|vm_compute; reflexivity].
    + apply Hfail. reflexivity.
Defined.

End Client.
